(** * sbench: a shallow embedding of the write / purge / read disk benchmark

    The development follows [sbench.cpp] function by function.  The program
    talks to the operating system only through a handful of calls (the
    [std::ofstream] operations, [std::system], [open], [fcntl], [read],
    [close], [unlink]); each of them is embedded as a primitive acting on a
    [Machine], and everything that the operating system decides (which call
    fails, when a signal arrives, what the entropy source returns) is read
    from an [Env].  The functions of the program are then written in a small
    state-and-exception monad [IO] over the machine. *)

From Stdlib Require Import ZArith Ascii String List Lia.
From Stdlib Require Import Strings.Byte.
From stdpp Require Import base option list gmap strings pretty.

Open Scope string_scope.
Open Scope list_scope.
Open Scope Z_scope.

(** ** Constants of the program *)

(** [size_t] and [long] are 64 bits wide on the platform the tool is written
    for; unsigned arithmetic wraps. *)
Definition SIZE_MAX : Z := 2 ^ 64 - 1.
Definition LONG_MAX : Z := 2 ^ 63 - 1.
Definition LONG_MIN : Z := - 2 ^ 63.

Definition wrap_size_t (z : Z) : Z := z mod 2 ^ 64.

Definition MB : Z := 1024 * 1024.
Definition BUFSZ : Z := MB.
Definition VER : string := "1.0".

(** The buffer size as a length of lists. *)
Definition BUFSZ_nat : nat := Z.to_nat BUFSZ.

(** ** The configuration record *)

Record Context := mkContext {
  outfile : string;
  mb : Z;                     (* size_t *)
  valid : bool;
  outfileCreated : bool
}.

(** The default member initialisers of [struct Context]. *)
Definition Context_default : Context :=
  {| outfile := ""; mb := 2 * 1024; valid := false; outfileCreated := false |}.

Definition set_outfile (s : string) (p : Context) : Context :=
  {| outfile := s; mb := mb p; valid := valid p; outfileCreated := outfileCreated p |}.
Definition set_mb (n : Z) (p : Context) : Context :=
  {| outfile := outfile p; mb := n; valid := valid p; outfileCreated := outfileCreated p |}.
Definition set_valid (b : bool) (p : Context) : Context :=
  {| outfile := outfile p; mb := mb p; valid := b; outfileCreated := outfileCreated p |}.
Definition set_outfileCreated (b : bool) (p : Context) : Context :=
  {| outfile := outfile p; mb := mb p; valid := valid p; outfileCreated := b |}.

(** ** What the operating system decides *)

(** Every call into the operating system is one numbered operation of a run:
    operation [t] is the one that leaves the [t]-th event in the trace.
    - [sig_at t] is the signal, if any, that is delivered while operation [t]
      runs (or between it and the next look at the flag);
    - [fault t] says that operation [t] fails;
    - [purge_status] is what [std::system] returns for the purge command;
    - [rand i] is the [i]-th word drawn from [std::random_device];
    - [ios_what] is the text of [std::ios_base::failure::what()]. *)
Record Env := mkEnv {
  sig_at : nat -> option Z;
  fault : nat -> bool;
  purge_status : Z;
  rand : nat -> Z;
  ios_what : string
}.

(** ** Observable events *)

Inductive Event :=
| EvOpenW (path : string) (ok : bool)
| EvWrite (path : string) (data : list byte) (ok : bool)
| EvFlush (path : string) (ok : bool)
| EvCloseW (path : string) (ok : bool)
| EvRandom
| EvSystem (cmd : string) (status : Z)
| EvOpenR (path : string) (fd : Z)
| EvFcntl (fd : Z) (res : Z)
| EvRead (fd : Z) (data : list byte) (res : Z)
| EvClose (fd : Z)
| EvUnlink (path : string) (res : Z).

(** ** The machine *)

(** [ctx] is the [Context] object [p] of [main]: [parseArgs] constructs it,
    [doWrite] and [doRead] receive it by reference and the clean-up closure
    captures it by reference, so it lives in the store.  [ostrm] is the path
    the [std::ofstream] of [doWrite] holds open, [fdtab] the one descriptor
    (number 3) of [doRead] with its path and file offset. *)
Record Machine := mkMachine {
  ctx : Context;
  fs : gmap string (list byte);
  ostrm : option string;
  fdtab : option (string * nat);
  interrupted : bool;
  trace : list Event;
  stderr : list string
}.

Definition set_ctx (p : Context) (m : Machine) : Machine :=
  mkMachine p (fs m) (ostrm m) (fdtab m) (interrupted m) (trace m) (stderr m).
Definition set_fs (f : gmap string (list byte)) (m : Machine) : Machine :=
  mkMachine (ctx m) f (ostrm m) (fdtab m) (interrupted m) (trace m) (stderr m).
Definition set_ostrm (o : option string) (m : Machine) : Machine :=
  mkMachine (ctx m) (fs m) o (fdtab m) (interrupted m) (trace m) (stderr m).
Definition set_fdtab (o : option (string * nat)) (m : Machine) : Machine :=
  mkMachine (ctx m) (fs m) (ostrm m) o (interrupted m) (trace m) (stderr m).
Definition set_interrupted (b : bool) (m : Machine) : Machine :=
  mkMachine (ctx m) (fs m) (ostrm m) (fdtab m) b (trace m) (stderr m).
Definition log (ev : Event) (m : Machine) : Machine :=
  mkMachine (ctx m) (fs m) (ostrm m) (fdtab m) (interrupted m)
            (trace m ++ [ev]) (stderr m).
Definition cerr (s : string) (m : Machine) : Machine :=
  mkMachine (ctx m) (fs m) (ostrm m) (fdtab m) (interrupted m)
            (trace m) (stderr m ++ [s]).

(** The state of a freshly started process on a file system [fs0]. *)
Definition boot (fs0 : gmap string (list byte)) : Machine :=
  {| ctx := Context_default; fs := fs0; ostrm := None; fdtab := None;
     interrupted := false; trace := []; stderr := [] |}.

(** ** The monad *)

Inductive Result (A : Type) :=
| Ok (a : A)
| Throw (what : string)
| OutOfFuel.
Arguments Ok {A} a.
Arguments Throw {A} what.
Arguments OutOfFuel {A}.

Definition IO (A : Type) : Type := Machine -> Result A * Machine.

Definition ret {A} (a : A) : IO A := fun m => (Ok a, m).

Definition bind {A B} (c : IO A) (k : A -> IO B) : IO B :=
  fun m =>
    match c m with
    | (Ok a, m1) => k a m1
    | (Throw w, m1) => (Throw w, m1)
    | (OutOfFuel, m1) => (OutOfFuel, m1)
    end.

Definition throw {A} (w : string) : IO A := fun m => (Throw w, m).

(** [try c catch (e) h] *)
Definition try_catch {A} (c : IO A) (h : string -> IO A) : IO A :=
  fun m =>
    match c m with
    | (Throw w, m1) => h w m1
    | r => r
    end.

Definition get {A} (f : Machine -> A) : IO A := fun m => (Ok (f m), m).
Definition modify (f : Machine -> Machine) : IO unit := fun m => (Ok tt, f m).

Declare Scope io_scope.
Delimit Scope io_scope with io.
Notation "x ← y ; z" := (bind y (fun x => z))
  (at level 20, y at level 100, z at level 200, only parsing) : io_scope.
Notation "' x ← y ; z" := (bind y (fun x => z))
  (at level 20, x pattern, y at level 100, z at level 200, only parsing) : io_scope.
Notation "x ;; z" := (bind x (fun _ => z))
  (at level 100, z at level 200, only parsing, right associativity) : io_scope.
Open Scope io_scope.

(** Scope exit: a destructor runs after the body, whatever way the body
    left (value or exception in flight). *)
Definition at_scope_exit {A} (dtor : Machine -> Machine) (body : IO A) : IO A :=
  fun m =>
    match body m with
    | (OutOfFuel, m1) => (OutOfFuel, m1)
    | (r, m1) => (r, dtor m1)
    end.

(** ** [struct Defer] *)

Record Defer := mkDefer { func : option (IO unit) }.

(** [~Defer() { if (func) func(); }] *)
Definition Defer_dtor (d : Defer) : Machine -> Machine :=
  fun m =>
    match func d with
    | Some f => snd (f m)
    | None => m
    end.

(** ** Text helpers *)

Definition endl : string := String (ascii_of_nat 10) "".
Definition tab : string := String (ascii_of_nat 9) "".

(** The bytes of the copyright line of the banner, as they are in the source. *)
Definition copyright_line : string :=
  String (ascii_of_nat 195) (String (ascii_of_nat 130)
  (String (ascii_of_nat 194) (String (ascii_of_nat 169)
  " 2019 Calin Culianu <calin.culianu@gmail.com>"))).

(** ** [std::stol]

    The library function the program parses SIZE_MB with: optional white
    space, an optional sign, then decimal digits; [pos] is the number of
    characters consumed.  No digit at all is [std::invalid_argument], a value
    outside [long] is [std::out_of_range]. *)

Inductive StolResult :=
| Parsed (value : Z) (pos : nat)
| InvalidArgument
| OutOfRange.

Definition isspace (c : ascii) : bool :=
  let n := nat_of_ascii c in
  ((n =? 32) || ((9 <=? n) && (n <=? 13)))%nat.

Definition digit_of (c : ascii) : option Z :=
  let n := nat_of_ascii c in
  if ((48 <=? n) && (n <=? 57))%nat then Some (Z.of_nat n - 48) else None.

Fixpoint skip_spaces (s : string) : nat * string :=
  match s with
  | String c r => if isspace c then let (n, r') := skip_spaces r in (S n, r') else (O, s)
  | EmptyString => (O, s)
  end.

Fixpoint read_digits (s : string) (acc : Z) : Z * nat :=
  match s with
  | String c r =>
      match digit_of c with
      | Some d => let (v, n) := read_digits r (10 * acc + d) in (v, S n)
      | None => (acc, O)
      end
  | EmptyString => (acc, O)
  end.

Definition stol (s : string) : StolResult :=
  let (nsp, s1) := skip_spaces s in
  let '(neg, nsign, s2) :=
    match s1 with
    | String "-" r => (true, 1%nat, r)
    | String "+" r => (false, 1%nat, r)
    | _ => (false, O, s1)
    end in
  let (v, nd) := read_digits s2 0 in
  if (nd =? 0)%nat then InvalidArgument
  else
    let v' := if neg then - v else v in
    if ((LONG_MIN <=? v') && (v' <=? LONG_MAX))%Z
    then Parsed v' (nsp + nsign + nd)
    else OutOfRange.

(** ** The random buffer *)

Definition byte_of_Z (z : Z) : byte :=
  match Byte.of_N (Z.to_N (Z.land z 255)) with
  | Some b => b
  | None => x00
  end.

(** The [n] low bytes of [w] as they lie in memory (little endian). *)
Fixpoint le_bytes (n : nat) (w : Z) : list byte :=
  match n with
  | O => []
  | S n' => byte_of_Z w :: le_bytes n' (Z.shiftr w 8)
  end.

(** A [uint64_t] stored into the buffer. *)
Definition word_bytes (w : Z) : list byte := le_bytes 8 w.

Section Program.

Variable e : Env.

(** [words[i] = dist(rd)] for [i < BUFSZ/sizeof(uint64_t)]; the distribution
    ranges over all of [uint64_t], of which [word_bytes] keeps the 64 bits. *)
Definition random_buffer : list byte :=
  flat_map (fun i => word_bytes (rand e i)) (seq 0 (Z.to_nat (BUFSZ / 8))).

(** ** Signals and time *)

(** [sigHandler] *)
Definition sigHandler (sig : Z) (m : Machine) : Machine :=
  cerr ("(Caught signal " +:+ pretty sig +:+ ", will exit)" +:+ endl)
       (set_interrupted true m).

(** The number of the operation that comes next. *)
Definition now (m : Machine) : nat := length (trace m).

(** A signal that arrived during operation [t] has run the handler by the
    time the operation returns. *)
Definition deliver (t : nat) (m : Machine) : Machine :=
  match sig_at e t with
  | Some sig => sigHandler sig m
  | None => m
  end.

(** An operation leaves its event in the trace. *)
Definition step (ev : Event) (m : Machine) : Machine :=
  deliver (now m) (log ev m).

(** [::signal(SIGINT, sigHandler)] and the three others: from here on signals
    run [sigHandler] instead of ending the process; delivery itself is in
    [step]. *)
Definition install_handlers : IO unit := ret tt.

(** ** [std::ofstream], with [exceptions(failbit | badbit)] *)

Definition file_content (path : string) (f : gmap string (list byte)) : list byte :=
  default [] (f !! path).

(** [ostrm.open(path, binary | out | trunc)] *)
Definition ofstream_open (path : string) : IO unit :=
  fun m =>
    if fault e (now m)
    then (Throw (ios_what e), step (EvOpenW path false) m)
    else (Ok tt, step (EvOpenW path true)
                   (set_ostrm (Some path) (set_fs (<[path := []]> (fs m)) m))).

(** [ostrm.write(buf, n)] *)
Definition ofstream_write (data : list byte) : IO unit :=
  fun m =>
    match ostrm m with
    | None => (Throw (ios_what e), m)
    | Some path =>
        if fault e (now m)
        then (Throw (ios_what e), step (EvWrite path data false) m)
        else (Ok tt, step (EvWrite path data true)
                       (set_fs (<[path := file_content path (fs m) ++ data]> (fs m)) m))
    end.

(** [ostrm.flush()] *)
Definition ofstream_flush : IO unit :=
  fun m =>
    match ostrm m with
    | None => (Ok tt, m)
    | Some path =>
        if fault e (now m)
        then (Throw (ios_what e), step (EvFlush path false) m)
        else (Ok tt, step (EvFlush path true) m)
    end.

(** [ostrm.close()]: the stream is closed afterwards even when closing
    reports a failure. *)
Definition ofstream_close : IO unit :=
  fun m =>
    match ostrm m with
    | None => (Throw (ios_what e), m)
    | Some path =>
        if fault e (now m)
        then (Throw (ios_what e), step (EvCloseW path false) (set_ostrm None m))
        else (Ok tt, step (EvCloseW path true) (set_ostrm None m))
    end.

Definition ofstream_is_open (m : Machine) : bool :=
  match ostrm m with Some _ => true | None => false end.

(** [~ofstream()]: closes the file when it is still open and reports
    nothing. *)
Definition ofstream_dtor (m : Machine) : Machine :=
  match ostrm m with
  | None => m
  | Some path => step (EvCloseW path (negb (fault e (now m)))) (set_ostrm None m)
  end.

(** Drawing the words of the buffer from [std::random_device]. *)
Definition fill_random : IO (list byte) :=
  fun m => (Ok random_buffer, step EvRandom m).

(** ** System calls *)

(** [std::system(cmd)] *)
Definition system (cmd : string) : IO Z :=
  fun m => (Ok (purge_status e), step (EvSystem cmd (purge_status e)) m).

(** [::open(path, O_RDONLY | O_CLOEXEC)]: descriptors 0 to 2 are the standard
    streams, so the call returns 3, or -1 when it fails. *)
Definition sys_open (path : string) : IO Z :=
  fun m =>
    match fs m !! path with
    | Some _ =>
        if fault e (now m)
        then (Ok (-1), step (EvOpenR path (-1)) m)
        else (Ok 3, step (EvOpenR path 3) (set_fdtab (Some (path, O)) m))
    | None => (Ok (-1), step (EvOpenR path (-1)) m)
    end.

(** [::fcntl(fd, F_NOCACHE, 1)] *)
Definition sys_fcntl_nocache (fd : Z) : IO Z :=
  fun m =>
    let res := if fault e (now m) then -1 else 0 in
    (Ok res, step (EvFcntl fd res) m).

(** [::read(fd, buf, n)]: the next [n] bytes of the file, fewer at its end. *)
Definition sys_read (fd : Z) (n : nat) : IO Z :=
  fun m =>
    match fdtab m with
    | Some (path, off) =>
        if negb (fd =? 3) || fault e (now m)
        then (Ok (-1), step (EvRead fd [] (-1)) m)
        else
          let data := take n (drop off (file_content path (fs m))) in
          let nread := Z.of_nat (length data) in
          (Ok nread, step (EvRead fd data nread)
                       (set_fdtab (Some (path, (off + length data)%nat)) m))
    | None => (Ok (-1), step (EvRead fd [] (-1)) m)
    end.

(** [::close(fd)] *)
Definition sys_close (fd : Z) : IO unit :=
  fun m => (Ok tt, step (EvClose fd) (set_fdtab None m)).

(** [unlink(path)] *)
Definition sys_unlink (path : string) : IO Z :=
  fun m =>
    match fs m !! path with
    | Some _ =>
        if fault e (now m)
        then (Ok (-1), step (EvUnlink path (-1)) m)
        else (Ok 0, step (EvUnlink path 0) (set_fs (delete path (fs m)) m))
    | None => (Ok (-1), step (EvUnlink path (-1)) m)
    end.

End Program.

(** ** The program *)

Section Sbench.

Variable e : Env.

(** *** [parseArgs] *)

(** The [usage] closure of [parseArgs]. *)
Definition usage (argv : list string) (showBanner : bool) : IO unit :=
  let progname := match argv with a0 :: _ => a0 | [] => "wrdata" end in
  (if showBanner then
     modify (cerr ("OSX Simple SSD Benchmark " +:+ VER +:+ endl));;
     modify (cerr (copyright_line +:+ endl +:+ endl))
   else ret tt);;
  modify (cerr ("Usage: " +:+ tab +:+ progname +:+ " outfile" +:+ " [SIZE_MB]" +:+ endl));;
  if showBanner then modify (cerr endl) else ret tt.

(** [std::stol(s, &pos)] with its two exceptions. *)
Definition stol_call (s : string) : IO (Z * nat) :=
  match stol s with
  | Parsed v pos => ret (v, pos)
  | InvalidArgument => throw "stol: no conversion"
  | OutOfRange => throw "stol: out of range"
  end.

Definition first_is_dash (s : string) : bool :=
  match s with
  | String c _ => Ascii.eqb c "-"
  | EmptyString => false
  end.

(** The [Inner] closure of [parseArgs]; [argc] is the length of [argv]. *)
Definition parseArgs_Inner (argv : list string) : IO bool :=
  if (length argv <? 2)%nat then
    usage argv true;; ret false
  else
    modify (fun m => set_ctx (set_outfile (nth 1 argv "") (ctx m)) m);;
    p ← get ctx;
    if (String.length (outfile p) =? 0)%nat || first_is_dash (outfile p) then
      usage argv true;; ret false
    else if (2 <? length argv)%nat then
      try_catch
        (let s := nth 2 argv "" in
         '(mb, pos) ← stol_call s;
         (if mb <=? 0 then throw "must be >= 0" else ret tt);;
         (if (pos <? String.length s)%nat
          then throw "extra characters at end of string" else ret tt);;
         modify (fun m => set_ctx (set_mb mb (ctx m)) m);;
         ret true)
        (fun what =>
           modify (cerr ("Failed to parse SIZE_MB (" +:+ what +:+ ")" +:+ endl +:+ endl));;
           usage argv false;;
           ret false)
    else ret true.

Definition parseArgs (argv : list string) : IO Context :=
  modify (set_ctx Context_default);;
  v ← parseArgs_Inner argv;
  modify (fun m => set_ctx (set_valid v (ctx m)) m);;
  get ctx.

(** *** [doWrite] *)

(** [for (size_t i = 0; i < N/BUFSZ && !interrupted; ++i) ostrm.write(buf, BUFSZ);]
    with [n] the number of iterations still to go. *)
Fixpoint write_loop (n : nat) (buf : list byte) : IO unit :=
  match n with
  | O => ret tt
  | S n' =>
      intr ← get interrupted;
      if intr then ret tt
      else ofstream_write e buf;; write_loop n' buf
  end.

Definition doWrite : IO Z :=
  p ← get ctx;
  let N := wrap_size_t (mb p * MB) in
  if N <? BUFSZ then
    modify (cerr ("Invalid output size specified: " +:+ pretty N +:+ endl));;
    ret 2
  else
    at_scope_exit (ofstream_dtor e)
      (failed ← try_catch
         (ofstream_open e (outfile p);;
          modify (fun m => set_ctx (set_outfileCreated true (ctx m)) m);;
          buf ← fill_random e;
          write_loop (Z.to_nat (N / BUFSZ)) buf;;
          ofstream_flush e;;
          ofstream_close e;;
          ret false)
         (fun what =>
            is_open ← get ofstream_is_open;
            let verb := if is_open then "writing to" else "opening" in
            modify (cerr ("Error " +:+ verb +:+ " " +:+ outfile p
                          +:+ " (" +:+ what +:+ ")" +:+ endl));;
            ret true);
       if failed then ret 3
       else
         intr ← get interrupted;
         if intr then ret 99 else ret 0).

(** *** [doRead] *)

Definition purge_command : string := "/usr/bin/sudo /usr/sbin/purge".

(** [while ((nread = ::read(fd, buf.get(), BUFSZ)) > 0 && !interrupted) count += nread;]
    Every turn of the loop consumes at least one byte of the file, so the
    caller bounds the number of turns by the size of the file. *)
Fixpoint read_loop (fuel : nat) (fd : Z) (count : Z) : IO Z :=
  match fuel with
  | O => fun m => (OutOfFuel, m)
  | S fuel' =>
      nread ← sys_read e fd BUFSZ_nat;
      intr ← get interrupted;
      if (0 <? nread) && negb intr
      then read_loop fuel' fd (wrap_size_t (count + nread))
      else ret count
  end.

(** The closure of [defer_CloseFd]; [fd] is not used after it. *)
Definition defer_CloseFd (fd : Z) : Defer :=
  mkDefer (Some (if 0 <=? fd then sys_close e fd else ret tt)).

Definition doRead : IO Z :=
  p ← get ctx;
  res ← system e purge_command;
  if negb (res =? 0) then
    modify (cerr ("Failed to execute purge, exit code: " +:+ pretty res +:+ endl));;
    ret res
  else
    fd ← sys_open e (outfile p);
    if fd <? 0 then
      modify (cerr (endl +:+ "Error opening file" +:+ endl));;
      ret 10
    else
      at_scope_exit (Defer_dtor (defer_CloseFd fd))
        (res ← sys_fcntl_nocache e fd;
         if negb (res =? 0) then
           modify (cerr (endl +:+ "fcntl(F_NOCACHE) returned " +:+ pretty res +:+ endl));;
           ret 11
         else
           size ← get (fun m => length (file_content (outfile p) (fs m)));
           count ← read_loop (S size) fd 0;
           intr ← get interrupted;
           if intr then ret 99
           else if negb (count =? 0) then ret 0
           else
             modify (cerr ("Error reading!" +:+ endl));;
             ret 20).

(** *** [main] *)

(** The closure of [defer_RmOutfile]; it reads [p] when it runs. *)
Definition defer_RmOutfile : Defer :=
  mkDefer (Some
    (p ← get ctx;
     if outfileCreated p then
       r ← sys_unlink e (outfile p);
       if negb (r =? 0) then
         modify (cerr ("Failed to remove file " +:+ outfile p +:+ endl))
       else
         modify (fun m => set_ctx (set_outfileCreated false (ctx m)) m);;
         modify (cerr ("(Removed " +:+ outfile p +:+ ")" +:+ endl))
     else ret tt)).

(** What [main] does between arming the clean-up and leaving its scope. *)
Definition pipeline : IO Z :=
  res ← doWrite;
  if negb (res =? 0) then ret res
  else
    res ← doRead;
    ret res.

(** The scope of [defer_RmOutfile]. *)
Definition guarded_pipeline : IO Z :=
  at_scope_exit (Defer_dtor defer_RmOutfile) pipeline.

Definition main (argv : list string) : IO Z :=
  p ← parseArgs argv;
  if negb (valid p) then ret 1
  else
    install_handlers;;
    guarded_pipeline.

End Sbench.

(** A run of the program: the result of [main] and the final machine. *)
Definition run (e : Env) (argv : list string) (fs0 : gmap string (list byte))
  : Result Z * Machine :=
  main e argv (boot fs0).


(** ** Vocabulary for the properties *)

(** The phase an event belongs to. *)
Definition is_write_event (ev : Event) : bool :=
  match ev with
  | EvOpenW _ _ | EvWrite _ _ _ | EvFlush _ _ | EvCloseW _ _ | EvRandom => true
  | _ => false
  end.

Definition is_purge_event (ev : Event) : bool :=
  match ev with EvSystem _ _ => true | _ => false end.

Definition is_read_event (ev : Event) : bool :=
  match ev with
  | EvOpenR _ _ | EvFcntl _ _ | EvRead _ _ _ | EvClose _ => true
  | _ => false
  end.

Definition is_unlink_event (ev : Event) : bool :=
  match ev with EvUnlink _ _ => true | _ => false end.

(** An operation on the output stream that reported a failure. *)
Definition is_write_failure (ev : Event) : bool :=
  match ev with
  | EvOpenW _ ok | EvWrite _ _ ok | EvFlush _ ok | EvCloseW _ ok => negb ok
  | _ => false
  end.

Definition is_ok_write (ev : Event) : bool :=
  match ev with EvWrite _ _ true => true | _ => false end.

(** The number of buffers written, the bytes written and the bytes read in a
    trace. *)
Definition count_writes (t : list Event) : nat := length (List.filter is_ok_write t).

Definition written (ev : Event) : list byte :=
  match ev with EvWrite _ data true => data | _ => [] end.

Definition bytes_written (t : list Event) : list byte := flat_map written t.

Definition was_read (ev : Event) : list byte :=
  match ev with EvRead _ data _ => data | _ => [] end.

Definition bytes_read (t : list Event) : list byte := flat_map was_read t.

Definition is_some {A} (o : option A) : bool :=
  match o with Some _ => true | None => false end.

(** A signal has arrived during one of the first [n] operations. *)
Fixpoint signalled (e : Env) (n : nat) : bool :=
  match n with
  | O => false
  | S k => signalled e k || is_some (sig_at e k)
  end.

(** The flag of the machine says what the environment delivered. *)
Definition sync (e : Env) (m : Machine) : Prop :=
  interrupted m = signalled e (now m).

(** An environment in which nothing fails and no signal arrives. *)
Definition quiet : Env :=
  {| sig_at := fun _ => None; fault := fun _ => false; purge_status := 0;
     rand := fun _ => 1311768467463790320; ios_what := "ios_base::failure" |}.

(** The same with operation [t] failing. *)
Definition failing_at (t : nat) : Env :=
  {| sig_at := fun _ => None; fault := fun c => (c =? t)%nat; purge_status := 0;
     rand := fun _ => 1311768467463790320; ios_what := "ios_base::failure" |}.

(** The same with signal [sig] arriving during operation [t]. *)
Definition signal_at (t : nat) (sig : Z) : Env :=
  {| sig_at := fun c => if (c =? t)%nat then Some sig else None;
     fault := fun _ => false; purge_status := 0;
     rand := fun _ => 1311768467463790320; ios_what := "ios_base::failure" |}.

(** The purge command ending with [status], nothing else going wrong. *)
Definition purge_returns (status : Z) : Env :=
  {| sig_at := fun _ => None; fault := fun _ => false; purge_status := status;
     rand := fun _ => 1311768467463790320; ios_what := "ios_base::failure" |}.

(** Signal [sig] arriving during operation [t], and operation [f] failing. *)
Definition signal_and_fault (t : nat) (sig : Z) (f : nat) : Env :=
  {| sig_at := fun c => if (c =? t)%nat then Some sig else None;
     fault := fun c => (c =? f)%nat; purge_status := 0;
     rand := fun _ => 1311768467463790320; ios_what := "ios_base::failure" |}.


(** *** Vocabulary for [parseArgs] *)

(** What [usage] prints. *)
Definition usage_lines (argv : list string) (showBanner : bool) : list string :=
  let progname := match argv with a0 :: _ => a0 | [] => "wrdata" end in
  let line := "Usage: " +:+ tab +:+ progname +:+ " outfile" +:+ " [SIZE_MB]" +:+ endl in
  if showBanner
  then ["OSX Simple SSD Benchmark " +:+ VER +:+ endl;
        copyright_line +:+ endl +:+ endl; line; endl]
  else [line].

Definition parse_error_line (what : string) : string :=
  "Failed to parse SIZE_MB (" +:+ what +:+ ")" +:+ endl +:+ endl.

(** The name [usage] prints, and its line. *)
Definition progname_of (argv : list string) : string :=
  match argv with a0 :: _ => a0 | [] => "wrdata" end.

Definition usage_line (progname : string) : string :=
  "Usage: " +:+ tab +:+ progname +:+ " outfile" +:+ " [SIZE_MB]" +:+ endl.

(** The machine after [parseArgs] left [p] in the store and [lines] on the
    diagnostic stream. *)
Definition parsed (p : Context) (lines : list string) (m : Machine) : Machine :=
  mkMachine p (fs m) (ostrm m) (fdtab m) (interrupted m) (trace m) (stderr m ++ lines).

(** A path [parseArgs] accepts. *)
Definition good_path (s : string) : bool :=
  negb ((String.length s =? 0)%nat || first_is_dash s).

(** A size argument [parseArgs] accepts, with its value. *)
Definition size_of_arg (s : string) : string + Z :=
  match stol s with
  | Parsed v pos =>
      if v <=? 0 then inl "must be >= 0"
      else if (pos <? String.length s)%nat then inl "extra characters at end of string"
      else inr v
  | InvalidArgument => inl "stol: no conversion"
  | OutOfRange => inl "stol: out of range"
  end.

(** *** The loops and phases as relations

    [WriteLoop e path buf n c t threw]: the write loop with [n] turns to go,
    entered when [c] operations have taken place, leaves the events [t] and
    ends normally or ([threw]) by the exception of a failed write. *)
Inductive WriteLoop (e : Env) (path : string) (buf : list byte)
  : nat -> nat -> list Event -> bool -> Prop :=
| WL_end c :
    WriteLoop e path buf 0 c [] false
| WL_interrupted n c :
    signalled e c = true ->
    WriteLoop e path buf (S n) c [] false
| WL_fault n c :
    signalled e c = false ->
    fault e c = true ->
    WriteLoop e path buf (S n) c [EvWrite path buf false] true
| WL_write n c t threw :
    signalled e c = false ->
    fault e c = false ->
    WriteLoop e path buf n (S c) t threw ->
    WriteLoop e path buf (S n) c (EvWrite path buf true :: t) threw.

(** [WritePhase e path buf turns c t code]: [doWrite], entered with a size of
    [turns] buffers when [c] operations have taken place, leaves the events
    [t] and returns [code]. *)
Inductive WritePhase (e : Env) (path : string) (buf : list byte) (turns c : nat)
  : list Event -> Z -> Prop :=
| WP_open_fails :
    fault e c = true ->
    WritePhase e path buf turns c [EvOpenW path false] 3
| WP_write_fails t :
    fault e c = false ->
    WriteLoop e path buf turns (c + 2) t true ->
    WritePhase e path buf turns c
      ([EvOpenW path true; EvRandom] ++ t
         ++ [EvCloseW path (negb (fault e (c + 2 + length t)))]) 3
| WP_flush_fails t :
    fault e c = false ->
    WriteLoop e path buf turns (c + 2) t false ->
    fault e (c + 2 + length t) = true ->
    WritePhase e path buf turns c
      ([EvOpenW path true; EvRandom] ++ t
         ++ [EvFlush path false; EvCloseW path (negb (fault e (c + 3 + length t)))]) 3
| WP_close_fails t :
    fault e c = false ->
    WriteLoop e path buf turns (c + 2) t false ->
    fault e (c + 2 + length t) = false ->
    fault e (c + 3 + length t) = true ->
    WritePhase e path buf turns c
      ([EvOpenW path true; EvRandom] ++ t ++ [EvFlush path true; EvCloseW path false]) 3
| WP_completes t :
    fault e c = false ->
    WriteLoop e path buf turns (c + 2) t false ->
    fault e (c + 2 + length t) = false ->
    fault e (c + 3 + length t) = false ->
    WritePhase e path buf turns c
      ([EvOpenW path true; EvRandom] ++ t ++ [EvFlush path true; EvCloseW path true])
      (if signalled e (c + 4 + length t) then 99 else 0).

(** The size in bytes [doWrite] computes, and the number of buffers it makes. *)
Definition total_bytes (p : Context) : Z := wrap_size_t (mb p * MB).
Definition turns (p : Context) : nat := Z.to_nat (total_bytes p / BUFSZ).

Arguments now : simpl never.
Arguments random_buffer : simpl never.
Arguments BUFSZ : simpl never.
Arguments BUFSZ_nat : simpl never.
Arguments MB : simpl never.
Arguments wrap_size_t : simpl never.
Arguments file_content : simpl never.
Arguments write_loop : simpl never.
Arguments read_loop : simpl never.

(** [ReadLoop e content off c count t count']: the read loop, entered at file
    offset [off] with [count] bytes counted when [c] operations have taken
    place, leaves the events [t] and ends with [count'] bytes counted. *)
Inductive ReadLoop (e : Env) (content : list byte)
  : nat -> nat -> Z -> list Event -> Z -> Prop :=
| RL_fault off c count :
    fault e c = true ->
    ReadLoop e content off c count [EvRead 3 [] (-1)] count
| RL_eof off c count :
    fault e c = false ->
    take BUFSZ_nat (drop off content) = [] ->
    ReadLoop e content off c count [EvRead 3 [] 0] count
| RL_interrupted off c count data :
    fault e c = false ->
    data = take BUFSZ_nat (drop off content) ->
    data <> [] ->
    signalled e (S c) = true ->
    ReadLoop e content off c count [EvRead 3 data (Z.of_nat (length data))] count
| RL_more off c count data t count' :
    fault e c = false ->
    data = take BUFSZ_nat (drop off content) ->
    data <> [] ->
    signalled e (S c) = false ->
    ReadLoop e content (off + length data) (S c)
             (wrap_size_t (count + Z.of_nat (length data))) t count' ->
    ReadLoop e content off c count
             (EvRead 3 data (Z.of_nat (length data)) :: t) count'.

(** [ReadPhase e path content c t code]: [doRead], entered when [c]
    operations have taken place and the file at [path] holds [content] (or is
    absent), leaves the events [t] and returns [code]. *)
Inductive ReadPhase (e : Env) (path : string) (content : option (list byte)) (c : nat)
  : list Event -> Z -> Prop :=
| RP_purge_fails :
    purge_status e <> 0 ->
    ReadPhase e path content c
      [EvSystem purge_command (purge_status e)] (purge_status e)
| RP_open_fails :
    purge_status e = 0 ->
    content = None \/ fault e (c + 1) = true ->
    ReadPhase e path content c
      [EvSystem purge_command 0; EvOpenR path (-1)] 10
| RP_nocache_fails :
    purge_status e = 0 ->
    content <> None ->
    fault e (c + 1) = false ->
    fault e (c + 2) = true ->
    ReadPhase e path content c
      [EvSystem purge_command 0; EvOpenR path 3; EvFcntl 3 (-1); EvClose 3] 11
| RP_reads data t count :
    purge_status e = 0 ->
    content = Some data ->
    fault e (c + 1) = false ->
    fault e (c + 2) = false ->
    ReadLoop e data 0 (c + 3) 0 t count ->
    ReadPhase e path content c
      ([EvSystem purge_command 0; EvOpenR path 3; EvFcntl 3 0] ++ t ++ [EvClose 3])
      (if signalled e (c + 3 + length t) then 99
       else if count =? 0 then 20 else 0).

(** [Pipeline e path buf turns c t code]: the write phase, and the read
    phase when the write phase returned 0. *)
Inductive Pipeline (e : Env) (path : string) (buf : list byte) (turns c : nat)
  : list Event -> Z -> Prop :=
| PL_write_stops tw code :
    WritePhase e path buf turns c tw code ->
    code <> 0 ->
    Pipeline e path buf turns c tw code
| PL_reads tw tr code :
    WritePhase e path buf turns c tw 0 ->
    ReadPhase e path (Some (bytes_written tw)) (c + length tw) tr code ->
    Pipeline e path buf turns c (tw ++ tr) code.

(** [Guarded e path buf turns c t code]: the pipeline under the clean-up
    guard. *)
Inductive Guarded (e : Env) (path : string) (buf : list byte) (turns c : nat)
  : list Event -> Z -> Prop :=
| G_nothing_to_remove t code :
    fault e c = true ->
    Pipeline e path buf turns c t code ->
    Guarded e path buf turns c t code
| G_removes t code :
    fault e c = false ->
    Pipeline e path buf turns c t code ->
    Guarded e path buf turns c
      (t ++ [EvUnlink path (if fault e (c + length t) then -1 else 0)]) code.

Definition remove_failed_line (path : string) : string :=
  "Failed to remove file " +:+ path +:+ endl.

Definition removed_line (path : string) : string :=
  "(Removed " +:+ path +:+ ")" +:+ endl.

Definition invalid_size_line (n : Z) : string :=
  "Invalid output size specified: " +:+ pretty n +:+ endl.

Definition banner_line : string := "OSX Simple SSD Benchmark " +:+ VER +:+ endl.

(** An environment in which no operation fails, no signal arrives and the
    purge command succeeds. *)
Definition undisturbed (e : Env) : Prop :=
  (forall t, fault e t = false) /\ (forall t, sig_at e t = None) /\ purge_status e = 0.

(** *** Vocabulary for the exit codes *)

(** An [open] for reading that failed, an [fcntl] that failed, an [fcntl]
    that succeeded, an event of the purge or of the read phase. *)
Definition is_open_failure (ev : Event) : bool :=
  match ev with EvOpenR _ fd => fd <? 0 | _ => false end.

Definition is_nocache_failure (ev : Event) : bool :=
  match ev with EvFcntl _ res => negb (res =? 0) | _ => false end.

Definition is_nocache_ok (ev : Event) : bool :=
  match ev with EvFcntl _ res => res =? 0 | _ => false end.

Definition after_write (ev : Event) : bool :=
  is_purge_event ev || is_read_event ev.

(** A [read] that failed, a purge command that ended with a status other
    than 0. *)
Definition is_read_failure (ev : Event) : bool :=
  match ev with EvRead _ _ res => res <? 0 | _ => false end.

Definition is_purge_failure (ev : Event) : bool :=
  match ev with EvSystem _ status => negb (status =? 0) | _ => false end.

Definition purge_failed_line (res : Z) : string :=
  "Failed to execute purge, exit code: " +:+ pretty res +:+ endl.

(** What the parent process sees of the value [main] returns: its low eight
    bits.  ([std::system] itself returns a wait status, in which the exit
    code of the command is shifted left by eight bits.) *)
Definition exit_status (code : Z) : Z := Z.land code 255.

(** The codes the claim lists. *)
Definition listed_codes : list Z := [0; 1; 2; 3; 10; 11; 20; 99].

(** What a trace shows: the observations the exit code depends on. *)
Record Shows (t : list Event) (wfail ofail nfail nok aft : bool) : Prop := mkShows {
  shows_wf : existsb is_write_failure t = wfail;
  shows_of : existsb is_open_failure t = ofail;
  shows_nf : existsb is_nocache_failure t = nfail;
  shows_nk : existsb is_nocache_ok t = nok;
  shows_aw : existsb after_write t = aft
}.

(** * Properties *)

(** ** The machine's fields under the primitives *)

Section Fields.

Variable e : Env.

Lemma trace_deliver t m : trace (deliver e t m) = trace m.
Proof. unfold deliver. destruct (sig_at e t); reflexivity. Qed.

Lemma fs_deliver t m : fs (deliver e t m) = fs m.
Proof. unfold deliver. destruct (sig_at e t); reflexivity. Qed.

Lemma ctx_deliver t m : ctx (deliver e t m) = ctx m.
Proof. unfold deliver. destruct (sig_at e t); reflexivity. Qed.

Lemma ostrm_deliver t m : ostrm (deliver e t m) = ostrm m.
Proof. unfold deliver. destruct (sig_at e t); reflexivity. Qed.

Lemma fdtab_deliver t m : fdtab (deliver e t m) = fdtab m.
Proof. unfold deliver. destruct (sig_at e t); reflexivity. Qed.

Lemma interrupted_deliver t m :
  interrupted (deliver e t m) = interrupted m || is_some (sig_at e t).
Proof.
  unfold deliver. destruct (sig_at e t); simpl.
  - now rewrite orb_true_r.
  - now rewrite orb_false_r.
Qed.

Lemma trace_step ev m : trace (step e ev m) = trace m ++ [ev].
Proof. unfold step. now rewrite trace_deliver. Qed.

Lemma fs_step ev m : fs (step e ev m) = fs m.
Proof. unfold step. now rewrite fs_deliver. Qed.

Lemma ctx_step ev m : ctx (step e ev m) = ctx m.
Proof. unfold step. now rewrite ctx_deliver. Qed.

Lemma ostrm_step ev m : ostrm (step e ev m) = ostrm m.
Proof. unfold step. now rewrite ostrm_deliver. Qed.

Lemma fdtab_step ev m : fdtab (step e ev m) = fdtab m.
Proof. unfold step. now rewrite fdtab_deliver. Qed.

Lemma interrupted_step ev m :
  interrupted (step e ev m) = interrupted m || is_some (sig_at e (now m)).
Proof. unfold step. now rewrite interrupted_deliver. Qed.

Lemma now_step ev m : now (step e ev m) = S (now m).
Proof. unfold now. rewrite trace_step, length_app. simpl. lia. Qed.

Lemma sync_step ev m : sync e m -> sync e (step e ev m).
Proof.
  unfold sync. intros H. rewrite interrupted_step, now_step, H. reflexivity.
Qed.

Lemma sync_boot fs0 : sync e (boot fs0).
Proof. reflexivity. Qed.

End Fields.

#[global] Opaque step.

Create Rewrite HintDb mach.

Lemma now_set_ctx p m : now (set_ctx p m) = now m.
Proof. reflexivity. Qed.

Lemma now_set_fs f m : now (set_fs f m) = now m.
Proof. reflexivity. Qed.

Lemma now_set_ostrm o m : now (set_ostrm o m) = now m.
Proof. reflexivity. Qed.

Lemma now_set_fdtab o m : now (set_fdtab o m) = now m.
Proof. reflexivity. Qed.

Lemma now_cerr s m : now (cerr s m) = now m.
Proof. reflexivity. Qed.

#[export] Hint Rewrite trace_step fs_step ctx_step ostrm_step fdtab_step
  interrupted_step now_step now_set_ctx now_set_fs now_set_ostrm now_set_fdtab
  now_cerr : mach.

(** ** [parseArgs] *)

(** Unfolding the monad on a given machine. *)
Ltac io_run :=
  unfold bind, ret, modify, get, throw, try_catch; simpl.

Ltac same_machine :=
  unfold parsed, usage_lines, parse_error_line, cerr, set_ctx; simpl;
  repeat rewrite <- app_assoc; simpl; try rewrite app_nil_r; reflexivity.

Ltac mach := repeat (progress (autorewrite with mach; simpl)).
Ltac mach_in H := repeat (progress (autorewrite with mach in H; simpl in H)).

Section ParseArgs.

Variable e : Env.

Lemma usage_run argv b m :
  usage argv b m = (Ok tt, mkMachine (ctx m) (fs m) (ostrm m) (fdtab m)
                             (interrupted m) (trace m) (stderr m ++ usage_lines argv b)).
Proof. destruct m, b; unfold usage; io_run; same_machine. Qed.

Lemma parseArgs_too_few argv m :
  (length argv < 2)%nat ->
  parseArgs argv m = (Ok Context_default, parsed Context_default (usage_lines argv true) m).
Proof.
  intros H. apply Nat.ltb_lt in H.
  unfold parseArgs, parseArgs_Inner, usage. io_run. rewrite H. destruct m. same_machine.
Qed.

Lemma parseArgs_bad_path argv m :
  (2 <= length argv)%nat ->
  good_path (nth 1 argv "") = false ->
  let p := mkContext (nth 1 argv "") (2 * 1024) false false in
  parseArgs argv m = (Ok p, parsed p (usage_lines argv true) m).
Proof.
  intros H Hp. unfold good_path in Hp. apply negb_false_iff in Hp.
  assert (Hlt : (length argv <? 2)%nat = false) by (apply Nat.ltb_ge; lia).
  unfold parseArgs, parseArgs_Inner, usage. io_run. rewrite Hlt, Hp.
  destruct m. same_machine.
Qed.

Lemma parseArgs_default_size argv m :
  length argv = 2%nat ->
  good_path (nth 1 argv "") = true ->
  let p := mkContext (nth 1 argv "") (2 * 1024) true false in
  parseArgs argv m = (Ok p, parsed p [] m).
Proof.
  intros H Hp. unfold good_path in Hp. apply negb_true_iff in Hp.
  unfold parseArgs, parseArgs_Inner, usage. io_run. rewrite H, Hp. simpl.
  destruct m. same_machine.
Qed.

Lemma parseArgs_size_ok argv v m :
  (2 < length argv)%nat ->
  good_path (nth 1 argv "") = true ->
  size_of_arg (nth 2 argv "") = inr v ->
  let p := mkContext (nth 1 argv "") v true false in
  parseArgs argv m = (Ok p, parsed p [] m).
Proof.
  intros H Hp Hs. unfold good_path in Hp. apply negb_true_iff in Hp.
  assert (Hlt : (length argv <? 2)%nat = false) by (apply Nat.ltb_ge; lia).
  assert (Hgt : (2 <? length argv)%nat = true) by (apply Nat.ltb_lt; lia).
  unfold size_of_arg in Hs.
  unfold parseArgs, parseArgs_Inner, usage, stol_call. io_run. rewrite Hlt, Hp, Hgt.
  destruct (stol (nth 2 argv "")) as [v' pos| |]; try discriminate.
  destruct (v' <=? 0); try discriminate.
  destruct (pos <? String.length (nth 2 argv ""))%nat; try discriminate.
  injection Hs as ->. destruct m. same_machine.
Qed.

Lemma parseArgs_size_bad argv w m :
  (2 < length argv)%nat ->
  good_path (nth 1 argv "") = true ->
  size_of_arg (nth 2 argv "") = inl w ->
  let p := mkContext (nth 1 argv "") (2 * 1024) false false in
  parseArgs argv m = (Ok p, parsed p (parse_error_line w :: usage_lines argv false) m).
Proof.
  intros H Hp Hs. unfold good_path in Hp. apply negb_true_iff in Hp.
  assert (Hlt : (length argv <? 2)%nat = false) by (apply Nat.ltb_ge; lia).
  assert (Hgt : (2 <? length argv)%nat = true) by (apply Nat.ltb_lt; lia).
  unfold size_of_arg in Hs.
  unfold parseArgs, parseArgs_Inner, usage, stol_call. io_run. rewrite Hlt, Hp, Hgt.
  destruct (stol (nth 2 argv "")) as [v' pos| |].
  - destruct (v' <=? 0).
    + injection Hs as <-. destruct m. same_machine.
    + destruct (pos <? String.length (nth 2 argv ""))%nat; try discriminate.
      injection Hs as <-. destruct m. same_machine.
  - injection Hs as <-. destruct m. same_machine.
  - injection Hs as <-. destruct m. same_machine.
Qed.

(** Every command line falls under one of the five lemmas above. *)
Lemma parseArgs_cases argv m :
  exists p lines,
    parseArgs argv m = (Ok p, parsed p lines m) /\
    outfileCreated p = false /\
    (valid p = true ->
       lines = [] /\ (2 <= length argv)%nat /\ outfile p = nth 1 argv "" /\
       good_path (outfile p) = true /\ 0 < mb p <= LONG_MAX).
Proof.
  destruct (Nat.lt_ge_cases (length argv) 2%nat) as [H | H].
  { eexists _, _. split; [apply parseArgs_too_few; exact H|]. split; [reflexivity|].
    discriminate. }
  destruct (good_path (nth 1 argv "")) eqn:Hp.
  2:{ eexists _, _. split; [apply parseArgs_bad_path; assumption|]. split; [reflexivity|].
      discriminate. }
  destruct (Nat.eq_dec (length argv) 2%nat) as [H2 | H2].
  { eexists _, _. split; [apply parseArgs_default_size; assumption|]. split; [reflexivity|].
    intros _. simpl. repeat split; try assumption; try lia. unfold LONG_MAX. lia. }
  destruct (size_of_arg (nth 2 argv "")) as [w | v] eqn:Hs.
  { eexists _, _. split; [apply parseArgs_size_bad with (w := w); try assumption; lia|].
    split; [reflexivity|]. discriminate. }
  eexists _, _. split; [apply parseArgs_size_ok with (v := v); try assumption; lia|].
  split; [reflexivity|]. intros _. simpl. repeat split; try assumption.
  - unfold size_of_arg in Hs. destruct (stol (nth 2 argv "")); try discriminate.
    destruct (value <=? 0) eqn:Hv; try discriminate.
    destruct (pos <? String.length (nth 2 argv ""))%nat; try discriminate.
    injection Hs as <-. apply Z.leb_gt in Hv. lia.
  - unfold size_of_arg, stol in Hs.
    destruct (skip_spaces (nth 2 argv "")) as [nsp s1].
    destruct (match s1 with
              | String "-" r => (true, 1%nat, r)
              | String "+" r => (false, 1%nat, r)
              | _ => (false, O, s1)
              end) as [[neg nsign] s2].
    destruct (read_digits s2 0) as [v0 nd].
    destruct (nd =? 0)%nat; try discriminate.
    destruct ((LONG_MIN <=? (if neg then - v0 else v0))
              && ((if neg then - v0 else v0) <=? LONG_MAX)) eqn:Hr; try discriminate.
    destruct ((if neg then - v0 else v0) <=? 0); try discriminate.
    destruct (nsp + nsign + nd <? String.length (nth 2 argv ""))%nat; try discriminate.
    injection Hs as <-. apply andb_true_iff in Hr. destruct Hr as [_ Hr].
    apply Z.leb_le in Hr. exact Hr.
Qed.

End ParseArgs.

(** ** The write phase *)

Section WritePhase.

Variable e : Env.

Lemma sync_set_fs f m : sync e (set_fs f m) <-> sync e m.
Proof. reflexivity. Qed.

Lemma sync_set_ctx p m : sync e (set_ctx p m) <-> sync e m.
Proof. reflexivity. Qed.

Lemma sync_set_ostrm o m : sync e (set_ostrm o m) <-> sync e m.
Proof. reflexivity. Qed.

Lemma sync_set_fdtab o m : sync e (set_fdtab o m) <-> sync e m.
Proof. reflexivity. Qed.

Lemma sync_cerr s m : sync e (cerr s m) <-> sync e m.
Proof. reflexivity. Qed.

Lemma write_loop_S n buf :
  write_loop e (S n) buf =
    (intr ← get interrupted;
     if intr then ret tt else ofstream_write e buf;; write_loop e n buf).
Proof. reflexivity. Qed.

Lemma write_loop_shape path buf n :
  forall m content,
    sync e m -> ostrm m = Some path -> fs m !! path = Some content ->
    exists t threw m',
      WriteLoop e path buf n (now m) t threw /\
      write_loop e n buf m = ((if threw then Throw (ios_what e) else Ok tt), m') /\
      trace m' = trace m ++ t /\ sync e m' /\ ctx m' = ctx m /\
      ostrm m' = Some path /\ fdtab m' = fdtab m /\
      fs m' = <[path := content ++ bytes_written t]> (fs m).
Proof.
  induction n as [|n IH]; intros m content Hs Ho Hf.
  - exists [], false, m. simpl. rewrite !app_nil_r.
    repeat split; try assumption; try constructor.
    symmetry. now apply insert_id.
  - rewrite write_loop_S. io_run. destruct (interrupted m) eqn:Hi.
    + exists [], false, m. simpl. rewrite !app_nil_r.
      repeat split; try assumption.
      * apply WL_interrupted. now rewrite <- Hs.
      * symmetry. now apply insert_id.
    + unfold ofstream_write. rewrite Ho. destruct (fault e (now m)) eqn:Hfa.
      * exists [EvWrite path buf false], true, (step e (EvWrite path buf false) m).
        autorewrite with mach. simpl. rewrite app_nil_r.
        repeat split; try assumption.
        -- apply WL_fault; [now rewrite <- Hs | assumption].
        -- now apply sync_step.
        -- symmetry. now apply insert_id.
      * set (m1 := step e (EvWrite path buf true)
                     (set_fs (<[path := file_content path (fs m) ++ buf]> (fs m)) m)).
        assert (Hc : file_content path (fs m) = content)
          by (unfold file_content; now rewrite Hf).
        destruct (IH m1 (content ++ buf)) as (t & threw & m' & HL & Hrun & Ht & Hs' & Hctx & Ho' & Hfd & Hfs).
        { subst m1. now apply sync_step. }
        { subst m1. autorewrite with mach. exact Ho. }
        { subst m1. autorewrite with mach. simpl. rewrite Hc. apply lookup_insert_eq. }
        exists (EvWrite path buf true :: t), threw, m'.
        assert (Hnow : now m1 = S (now m)) by (subst m1; now autorewrite with mach).
        rewrite Hnow in HL.
        split; [apply WL_write; [now rewrite <- Hs | assumption | exact HL]|].
        split; [exact Hrun|].
        split; [rewrite Ht; subst m1; autorewrite with mach; simpl; now rewrite <- app_assoc|].
        split; [exact Hs'|].
        split; [rewrite Hctx; subst m1; now autorewrite with mach|].
        split; [exact Ho'|].
        split; [rewrite Hfd; subst m1; now autorewrite with mach|].
        rewrite Hfs. subst m1. autorewrite with mach. simpl.
        rewrite Hc, insert_insert_eq, <- app_assoc. reflexivity.
Qed.

Lemma doWrite_invalid_size m :
  total_bytes (ctx m) < BUFSZ ->
  doWrite e m =
    (Ok 2, cerr ("Invalid output size specified: " +:+ pretty (total_bytes (ctx m)) +:+ endl) m).
Proof.
  intros H. apply Z.ltb_lt in H. unfold total_bytes in *.
  unfold doWrite. io_run. rewrite H. reflexivity.
Qed.

Lemma doWrite_shape m :
  sync e m -> ostrm m = None ->
  BUFSZ <= total_bytes (ctx m) ->
  let path := outfile (ctx m) in
  exists t code m1,
    WritePhase e path (random_buffer e) (turns (ctx m)) (now m) t code /\
    doWrite e m = (Ok code, m1) /\
    trace m1 = trace m ++ t /\ sync e m1 /\ ostrm m1 = None /\ fdtab m1 = fdtab m /\
    ctx m1 = (if fault e (now m) then ctx m else set_outfileCreated true (ctx m)) /\
    fs m1 = (if fault e (now m) then fs m else <[path := bytes_written t]> (fs m)).
Proof.
  intros Hs Ho HN path.
  assert (HN' : (total_bytes (ctx m) <? BUFSZ) = false) by (apply Z.ltb_ge; lia).
  unfold total_bytes in HN'.
  unfold doWrite, at_scope_exit. io_run. rewrite HN'.
  unfold ofstream_open. destruct (fault e (now m)) eqn:Hf0.
  - (* the open fails *)
    unfold ofstream_is_open, ofstream_dtor. mach; rewrite ?Ho; mach; rewrite ?Ho; mach.
    eexists _, _, _. split; [apply WP_open_fails; exact Hf0|].
    split; [reflexivity|]. mach.
    repeat split; try assumption; try reflexivity.
    apply sync_cerr. now apply sync_step.
  - (* the file is open *)
    unfold fill_random.
    match goal with
    | |- context [write_loop e ?n ?b ?mm] =>
        destruct (write_loop_shape path b n mm [])
          as (t & threw & m4 & HL & Hrun & Ht & Hs4 & Hctx & Ho4 & Hfd & Hfs)
    end.
    { apply sync_step. apply sync_set_ctx. now apply sync_step. }
    { mach. reflexivity. }
    { mach. apply lookup_insert_eq. }
    mach_in HL.
    replace (S (S (now m))) with (now m + 2)%nat in HL by lia.
    rewrite Hrun.
    mach_in Ht; mach_in Hctx; mach_in Hfd; mach_in Hfs.
    rewrite insert_insert_eq in Hfs. simpl in Hfs.
    assert (Hnow4 : now m4 = (now m + 2 + length t)%nat).
    { unfold now. rewrite Ht, !length_app. simpl. lia. }
    destruct threw.
    + (* a write fails *)
      unfold ofstream_is_open, ofstream_dtor. mach; rewrite ?Ho4; mach; rewrite ?Ho4; mach.
      eexists _, _, _. split; [apply WP_write_fails; [exact Hf0 | exact HL]|].
      split; [rewrite Hnow4; reflexivity|].
      mach.
      split; [rewrite Ht, <- !app_assoc; reflexivity|].
      split; [apply sync_step, sync_set_ostrm, sync_cerr, Hs4|].
      split; [reflexivity|]. split; [exact Hfd|]. split; [exact Hctx|].
      rewrite Hfs. f_equal. unfold bytes_written. simpl. rewrite !flat_map_app. simpl.
      now rewrite app_nil_r.
    + unfold ofstream_flush. rewrite Ho4. rewrite Hnow4.
      destruct (fault e (now m + 2 + length t)) eqn:Hf1.
      * (* the flush fails *)
        unfold ofstream_is_open, ofstream_dtor. mach; rewrite ?Ho4; mach; rewrite ?Ho4; mach.
        eexists _, _, _. split; [apply WP_flush_fails; [exact Hf0 | exact HL | exact Hf1]|].
        split; [mach; rewrite Hnow4;
                replace (S (now m + 2 + length t)) with (now m + 3 + length t)%nat by lia;
                reflexivity|].
        mach.
        split; [rewrite Ht, <- !app_assoc; reflexivity|].
        split; [apply sync_step, sync_set_ostrm, sync_cerr, sync_step, Hs4|].
        split; [reflexivity|]. split; [exact Hfd|]. split; [exact Hctx|].
        rewrite Hfs. f_equal. unfold bytes_written. simpl. rewrite !flat_map_app. simpl.
        now rewrite app_nil_r.
      * unfold ofstream_close. mach. rewrite Ho4, Hnow4.
        replace (S (now m + 2 + length t)) with (now m + 3 + length t)%nat by lia.
        destruct (fault e (now m + 3 + length t)) eqn:Hf2.
        -- (* the close fails *)
           unfold ofstream_is_open, ofstream_dtor. mach.
           mach.
           eexists _, _, _.
           split; [apply WP_close_fails; [exact Hf0 | exact HL | exact Hf1 | exact Hf2]|].
           split; [reflexivity|].
           simpl. mach.
           split; [rewrite Ht, <- !app_assoc; reflexivity|].
           split; [apply sync_cerr, sync_step, sync_set_ostrm, sync_step, Hs4|].
           split; [reflexivity|]. split; [exact Hfd|]. split; [exact Hctx|].
           rewrite Hfs. f_equal. unfold bytes_written. simpl. rewrite !flat_map_app. simpl.
           now rewrite app_nil_r.
        -- (* flushed and closed *)
           set (m6 := step e (EvCloseW path true)
                        (set_ostrm None (step e (EvFlush path true) m4))).
           assert (Hs6 : sync e m6)
             by (subst m6; apply sync_step, sync_set_ostrm, sync_step, Hs4).
           assert (Hnow6 : now m6 = (now m + 4 + length t)%nat)
             by (subst m6; mach; lia).
           assert (Hi6 : interrupted m6 = signalled e (now m + 4 + length t))
             by (rewrite <- Hnow6; exact Hs6).
           assert (Ho6 : ostrm m6 = None) by (subst m6; now mach).
           assert (Ht6 : trace m6 = trace m ++
                     [EvOpenW path true; EvRandom] ++ t ++ [EvFlush path true; EvCloseW path true]).
           { subst m6. mach.
             rewrite Ht, <- !app_assoc. reflexivity. }
           assert (Hfd6 : fdtab m6 = fdtab m)
             by (subst m6; mach; exact Hfd).
           assert (Hctx6 : ctx m6 = set_outfileCreated true (ctx m))
             by (subst m6; mach; exact Hctx).
           assert (Hfs6 : fs m6 = <[path := bytes_written
                     ([EvOpenW path true; EvRandom] ++ t ++ [EvFlush path true; EvCloseW path true])]> (fs m)).
           { subst m6. mach.
             rewrite Hfs. f_equal. unfold bytes_written. simpl. rewrite !flat_map_app. simpl.
             now rewrite app_nil_r. }
           unfold ofstream_dtor.
           exists ([EvOpenW path true; EvRandom] ++ t ++ [EvFlush path true; EvCloseW path true]),
             (if signalled e (now m + 4 + length t) then 99 else 0), m6.
           split; [apply WP_completes; [exact Hf0 | exact HL | exact Hf1 | exact Hf2]|].
           split.
           { fold m6. rewrite Hi6.
             destruct (signalled e (now m + 4 + length t)); simpl; rewrite Ho6; reflexivity. }
           repeat split; assumption.
Qed.

End WritePhase.

(** ** The read phase *)

Section ReadPhase.

Variable e : Env.

Lemma read_loop_S fuel fd count :
  read_loop e (S fuel) fd count =
    (nread ← sys_read e fd BUFSZ_nat;
     intr ← get interrupted;
     if (0 <? nread) && negb intr
     then read_loop e fuel fd (wrap_size_t (count + nread))
     else ret count).
Proof. reflexivity. Qed.

Lemma read_loop_shape path content fuel :
  forall m off count,
    sync e m -> fdtab m = Some (path, off) ->
    file_content path (fs m) = content ->
    (length content - off < fuel)%nat ->
    exists t count' m',
      ReadLoop e content off (now m) count t count' /\
      read_loop e fuel 3 count m = (Ok count', m') /\
      trace m' = trace m ++ t /\ sync e m' /\ ctx m' = ctx m /\
      fs m' = fs m /\ ostrm m' = ostrm m.
Proof.
  induction fuel as [|fuel IH]; intros m off count Hs Hfd Hc Hfuel; [lia|].
  rewrite read_loop_S. io_run. unfold sys_read. rewrite Hfd. simpl.
  destruct (fault e (now m)) eqn:Hf.
  - exists [EvRead 3 [] (-1)], count, (step e (EvRead 3 [] (-1)) m). mach.
    repeat split; try reflexivity.
    + now apply RL_fault.
    + now apply sync_step.
  - rewrite Hc.
    destruct (take BUFSZ_nat (drop off content)) as [|b data] eqn:Hd.
    + exists [EvRead 3 [] 0], count,
        (step e (EvRead 3 [] 0) (set_fdtab (Some (path, (off + 0)%nat)) m)). mach.
      repeat split; try reflexivity.
      * now apply RL_eof.
      * now apply sync_step.
    + set (d := b :: data) in *.
      set (m1 := step e (EvRead 3 d (Z.of_nat (length d)))
                   (set_fdtab (Some (path, (off + length d)%nat)) m)).
      assert (Hs1 : sync e m1) by (subst m1; now apply sync_step).
      assert (Hn1 : now m1 = S (now m)) by (subst m1; now mach).
      assert (Hpos : (0 <? Z.of_nat (length d)) = true)
        by (apply Z.ltb_lt; subst d; simpl; lia).
      rewrite Hpos. simpl.
      assert (Hi : interrupted m1 = signalled e (S (now m)))
        by (rewrite <- Hn1; exact Hs1).
      destruct (interrupted m1) eqn:Hi1; simpl.
      * exists [EvRead 3 d (Z.of_nat (length d))], count, m1.
        split; [apply RL_interrupted; try assumption; try (now symmetry);
                subst d; discriminate|].
        repeat split; try (subst m1; mach; reflexivity); try assumption.
      * destruct (IH m1 (off + length d)%nat (wrap_size_t (count + Z.of_nat (length d))))
          as (t & count' & m' & HL & Hrun & Ht & Hs' & Hctx & Hfs & Ho); try assumption.
        { subst m1. now mach. }
        { subst m1. mach. exact Hc. }
        { assert (Hlen : (length d <= length content - off)%nat).
          { rewrite <- Hd, length_take, length_drop. lia. }
          subst d. simpl in Hlen |- *. lia. }
        exists (EvRead 3 d (Z.of_nat (length d)) :: t), count', m'.
        rewrite Hn1 in HL.
        split; [apply RL_more; try assumption; try (now symmetry); subst d; discriminate|].
        split; [exact Hrun|].
        split; [rewrite Ht; subst m1; mach; now rewrite <- app_assoc|].
        split; [exact Hs'|].
        split; [rewrite Hctx; subst m1; now mach|].
        split; [rewrite Hfs; subst m1; now mach|].
        rewrite Ho; subst m1; now mach.
Qed.

Lemma doRead_shape m :
  sync e m ->
  let path := outfile (ctx m) in
  exists t code m1,
    ReadPhase e path (fs m !! path) (now m) t code /\
    doRead e m = (Ok code, m1) /\
    trace m1 = trace m ++ t /\ sync e m1 /\ ctx m1 = ctx m /\
    fs m1 = fs m /\ ostrm m1 = ostrm m.
Proof.
  intros Hs path.
  assert (E1 : S (now m) = (now m + 1)%nat) by lia.
  assert (E2 : S (S (now m)) = (now m + 2)%nat) by lia.
  assert (E3 : S (S (S (now m))) = (now m + 3)%nat) by lia.
  unfold doRead, at_scope_exit, system. io_run.
  destruct (purge_status e =? 0) eqn:Hp; simpl.
  - (* the purge succeeded *)
    apply Z.eqb_eq in Hp. rewrite Hp.
    unfold sys_open. mach. fold path. rewrite E1.
    destruct (fs m !! path) as [data|] eqn:Hfile.
    + destruct (fault e (now m + 1)) eqn:Hf1; simpl.
      * (* open fails *)
        eexists _, _, _. split; [apply RP_open_fails; [exact Hp | now right]|].
        split; [reflexivity|]. mach. rewrite <- !app_assoc.
        repeat split. apply sync_cerr, sync_step, sync_step, Hs.
      * unfold sys_fcntl_nocache. mach. rewrite E2.
        destruct (fault e (now m + 2)) eqn:Hf2; simpl.
        -- (* fcntl fails *)
           unfold Defer_dtor, defer_CloseFd, sys_close. simpl.
           eexists _, _, _.
           split; [apply RP_nocache_fails; [exact Hp | discriminate | exact Hf1 | exact Hf2]|].
           split; [reflexivity|]. mach. rewrite <- !app_assoc.
           repeat split.
           apply sync_step, sync_set_fdtab, sync_cerr, sync_step, sync_step, sync_set_fdtab,
             sync_step, Hs.
        -- (* the loop *)
           match goal with
           | |- context [read_loop e ?n 3 0 ?mm] =>
               destruct (read_loop_shape path data n mm O 0)
                 as (t & count & m4 & HL & Hrun & Ht & Hs4 & Hctx & Hfs & Ho)
           end.
           { apply sync_step, sync_step, sync_set_fdtab, sync_step, Hs. }
           { now mach. }
           { mach. unfold file_content. now rewrite Hfile. }
           { mach. unfold file_content. rewrite Hfile. simpl. lia. }
           mach_in HL. rewrite E3 in HL.
           mach_in Ht. mach_in Hctx. mach_in Hfs. mach_in Ho.
           rewrite Hrun.
           assert (Hnow4 : now m4 = (now m + 3 + length t)%nat).
           { unfold now. rewrite Ht, !length_app. simpl. lia. }
           assert (Hi4 : interrupted m4 = signalled e (now m + 3 + length t))
             by (rewrite <- Hnow4; exact Hs4).
           unfold Defer_dtor, defer_CloseFd, sys_close. simpl.
           exists ([EvSystem purge_command 0; EvOpenR path 3; EvFcntl 3 0] ++ t ++ [EvClose 3]),
             (if signalled e (now m + 3 + length t) then 99
              else if count =? 0 then 20 else 0).
           assert (HRP : ReadPhase e path (Some data) (now m)
                     ([EvSystem purge_command 0; EvOpenR path 3; EvFcntl 3 0] ++ t ++ [EvClose 3])
                     (if signalled e (now m + 3 + length t) then 99
                      else if count =? 0 then 20 else 0))
             by (apply RP_reads with (data := data) (count := count); auto).
           rewrite Hi4.
           destruct (signalled e (now m + 3 + length t)); simpl.
           ++ eexists. split; [exact HRP|].
              split; [reflexivity|]. mach. rewrite Ht, <- !app_assoc.
              repeat split; try assumption.
              apply sync_step, sync_set_fdtab, Hs4.
           ++ destruct (count =? 0); simpl.
              ** eexists. split; [exact HRP|].
                 split; [reflexivity|]. mach. rewrite Ht, <- !app_assoc.
                 repeat split; try assumption.
                 apply sync_step, sync_set_fdtab, sync_cerr, Hs4.
              ** eexists. split; [exact HRP|].
                 split; [reflexivity|]. mach. rewrite Ht, <- !app_assoc.
                 repeat split; try assumption.
                 apply sync_step, sync_set_fdtab, Hs4.
    + (* the file is not there *)
      simpl. eexists _, _, _. split; [apply RP_open_fails; [exact Hp | now left]|].
      split; [reflexivity|]. mach. rewrite <- !app_assoc.
      repeat split. apply sync_cerr, sync_step, sync_step, Hs.
  - (* the purge failed *)
    apply Z.eqb_neq in Hp.
    eexists _, _, _. split; [apply RP_purge_fails; exact Hp|].
    split; [reflexivity|]. mach.
    repeat split. apply sync_cerr, sync_step, Hs.
Qed.

End ReadPhase.

(** ** What the events of a phase are *)

Section Kinds.

Variable e : Env.

Lemma WriteLoop_events path buf n c t threw :
  WriteLoop e path buf n c t threw ->
  Forall (fun ev => ev = EvWrite path buf true \/ ev = EvWrite path buf false) t.
Proof.
  induction 1; auto.
Qed.

Lemma WriteLoop_kind path buf n c t threw :
  WriteLoop e path buf n c t threw -> Forall (fun ev => is_write_event ev = true) t.
Proof.
  intros H. eapply Forall_impl; [eapply WriteLoop_events; exact H|].
  intros ev [-> | ->]; reflexivity.
Qed.

Lemma WritePhase_kind path buf n c t code :
  WritePhase e path buf n c t code -> Forall (fun ev => is_write_event ev = true) t.
Proof.
  destruct 1;
    repeat (apply Forall_app; split); repeat constructor;
    try (eapply WriteLoop_kind; eassumption).
Qed.

Lemma ReadLoop_kind content off c count t count' :
  ReadLoop e content off c count t count' ->
  Forall (fun ev => is_read_event ev = true) t.
Proof. induction 1; repeat constructor; auto. Qed.

Lemma ReadPhase_kind path content c t code :
  ReadPhase e path content c t code ->
  exists tr, t = EvSystem purge_command (purge_status e) :: tr /\
             Forall (fun ev => is_read_event ev = true) tr.
Proof.
  destruct 1 as [|Hp|Hp|data t count Hp]; try rewrite <- Hp; eexists; (split; [reflexivity|]);
    repeat constructor.
  apply Forall_app. split; [eapply ReadLoop_kind; eassumption | repeat constructor].
Qed.

Lemma bytes_written_app t1 t2 :
  bytes_written (t1 ++ t2) = bytes_written t1 ++ bytes_written t2.
Proof. unfold bytes_written. apply flat_map_app. Qed.

Lemma bytes_written_none t :
  Forall (fun ev => is_write_event ev = false) t -> bytes_written t = [].
Proof.
  induction 1 as [|ev t Hev _ IH]; [reflexivity|].
  unfold bytes_written in *. simpl. rewrite IH.
  destruct ev; try discriminate; reflexivity.
Qed.

Lemma ReadPhase_writes_nothing path content c t code :
  ReadPhase e path content c t code -> bytes_written t = [].
Proof.
  intros H. destruct (ReadPhase_kind _ _ _ _ _ H) as (tr & -> & Htr).
  apply bytes_written_none. constructor; [reflexivity|].
  eapply Forall_impl; [exact Htr|]. intros ev Hev. destruct ev; try discriminate; reflexivity.
Qed.

End Kinds.

(** ** The pipeline and its guard *)

Section Pipeline.

Variable e : Env.

Lemma WritePhase_zero_opened path buf n c t :
  WritePhase e path buf n c t 0 -> fault e c = false.
Proof. inversion 1; auto. Qed.

Lemma pipeline_shape m :
  sync e m -> ostrm m = None ->
  BUFSZ <= total_bytes (ctx m) ->
  let path := outfile (ctx m) in
  exists t code m1,
    Pipeline e path (random_buffer e) (turns (ctx m)) (now m) t code /\
    pipeline e m = (Ok code, m1) /\
    trace m1 = trace m ++ t /\ sync e m1 /\
    ctx m1 = (if fault e (now m) then ctx m else set_outfileCreated true (ctx m)) /\
    fs m1 = (if fault e (now m) then fs m else <[path := bytes_written t]> (fs m)).
Proof.
  intros Hs Ho HN path.
  destruct (doWrite_shape e m Hs Ho HN)
    as (tw & cw & m1 & HW & Hrun & Ht & Hs1 & Ho1 & Hfd & Hctx & Hfs).
  fold path in HW, Hfs.
  unfold pipeline. io_run. rewrite Hrun.
  destruct (cw =? 0) eqn:Hcw; simpl.
  - apply Z.eqb_eq in Hcw. subst cw.
    pose proof (WritePhase_zero_opened _ _ _ _ _ HW) as Hf0.
    rewrite Hf0 in Hctx, Hfs.
    destruct (doRead_shape e m1 Hs1)
      as (tr & code & m2 & HR & Hrun2 & Ht2 & Hs2 & Hctx2 & Hfs2 & _).
    rewrite Hrun2.
    assert (Hpath : outfile (ctx m1) = path) by (rewrite Hctx; reflexivity).
    rewrite Hpath in HR. rewrite Hfs in HR. rewrite lookup_insert_eq in HR.
    assert (Hnow1 : now m1 = (now m + length tw)%nat)
      by (unfold now; rewrite Ht, length_app; reflexivity).
    rewrite Hnow1 in HR.
    exists (tw ++ tr), code, m2.
    split; [apply PL_reads; assumption|].
    split; [reflexivity|].
    split; [rewrite Ht2, Ht, <- app_assoc; reflexivity|].
    split; [exact Hs2|].
    rewrite Hf0. split; [rewrite Hctx2; exact Hctx|].
    rewrite Hfs2, Hfs, bytes_written_app, (ReadPhase_writes_nothing _ _ _ _ _ _ HR), app_nil_r.
    reflexivity.
  - apply Z.eqb_neq in Hcw.
    exists tw, cw, m1.
    split; [apply PL_write_stops; assumption|].
    repeat split; assumption.
Qed.

(** The clean-up closure when there is nothing to remove. *)
Lemma cleanup_idle m :
  outfileCreated (ctx m) = false ->
  Defer_dtor (defer_RmOutfile e) m = m.
Proof.
  intros H. unfold Defer_dtor, defer_RmOutfile. simpl. io_run. rewrite H. reflexivity.
Qed.

(** The clean-up closure when the file was created and is there. *)
Lemma cleanup_unlinks m data :
  outfileCreated (ctx m) = true ->
  fs m !! outfile (ctx m) = Some data ->
  let path := outfile (ctx m) in
  let m2 := Defer_dtor (defer_RmOutfile e) m in
  sync e m -> 
  sync e m2 /\ outfile (ctx m2) = path /\ mb (ctx m2) = mb (ctx m) /\
  valid (ctx m2) = valid (ctx m) /\
  if fault e (now m)
  then trace m2 = trace m ++ [EvUnlink path (-1)] /\ fs m2 = fs m /\
       In (remove_failed_line path) (stderr m2) /\ outfileCreated (ctx m2) = true
  else trace m2 = trace m ++ [EvUnlink path 0] /\ fs m2 = delete path (fs m) /\
       In (removed_line path) (stderr m2) /\ outfileCreated (ctx m2) = false.
Proof.
  intros Hc Hf path m2 Hs. subst m2.
  unfold Defer_dtor, defer_RmOutfile. simpl. io_run. rewrite Hc.
  unfold sys_unlink. fold path. fold path in Hf. rewrite Hf.
  destruct (fault e (now m)) eqn:Hfa; simpl; mach.
  - split; [apply sync_cerr, sync_step, Hs|].
    repeat split; try assumption.
    apply in_app_iff. right. left. reflexivity.
  - split; [apply sync_cerr, sync_set_ctx, sync_step, Hs|].
    repeat split; try assumption.
    apply in_app_iff. right. left. reflexivity.
Qed.

Lemma guarded_pipeline_invalid_size m :
  total_bytes (ctx m) < BUFSZ ->
  outfileCreated (ctx m) = false ->
  guarded_pipeline e m = (Ok 2, cerr (invalid_size_line (total_bytes (ctx m))) m).
Proof.
  intros HN Hc. unfold guarded_pipeline, at_scope_exit, pipeline.
  unfold bind at 1. rewrite (doWrite_invalid_size e m HN). simpl.
  unfold ret. rewrite cleanup_idle; [reflexivity | exact Hc].
Qed.

Lemma guarded_pipeline_shape m :
  sync e m -> ostrm m = None ->
  BUFSZ <= total_bytes (ctx m) ->
  outfileCreated (ctx m) = false ->
  let path := outfile (ctx m) in
  exists t code m1,
    Pipeline e path (random_buffer e) (turns (ctx m)) (now m) t code /\
    pipeline e m = (Ok code, m1) /\
    trace m1 = trace m ++ t /\
    let m2 := Defer_dtor (defer_RmOutfile e) m1 in
    guarded_pipeline e m = (Ok code, m2) /\
    sync e m2 /\ outfile (ctx m2) = path /\ mb (ctx m2) = mb (ctx m) /\
    valid (ctx m2) = valid (ctx m) /\
    if fault e (now m)
    then trace m2 = trace m ++ t /\ fs m2 = fs m /\ outfileCreated (ctx m2) = false
    else
      if fault e (now m + length t)
      then trace m2 = trace m ++ t ++ [EvUnlink path (-1)] /\
           fs m2 = <[path := bytes_written t]> (fs m) /\
           In (remove_failed_line path) (stderr m2) /\ outfileCreated (ctx m2) = true
      else trace m2 = trace m ++ t ++ [EvUnlink path 0] /\
           fs m2 = delete path (fs m) /\
           In (removed_line path) (stderr m2) /\ outfileCreated (ctx m2) = false.
Proof.
  intros Hs Ho HN Hc path.
  destruct (pipeline_shape m Hs Ho HN) as (t & code & m1 & HP & Hrun & Ht & Hs1 & Hctx & Hfs).
  fold path in HP, Hfs.
  exists t, code, m1. split; [exact HP|]. split; [exact Hrun|]. split; [exact Ht|].
  intros m2.
  split; [unfold guarded_pipeline, at_scope_exit; rewrite Hrun; reflexivity|].
  destruct (fault e (now m)) eqn:Hf0.
  - assert (Hid : m2 = m1) by (apply cleanup_idle; rewrite Hctx; exact Hc).
    rewrite Hid, Hctx. repeat split; assumption.
  - assert (Hc1 : outfileCreated (ctx m1) = true) by (rewrite Hctx; reflexivity).
    assert (Hp1 : outfile (ctx m1) = path) by (rewrite Hctx; reflexivity).
    assert (Hf1 : fs m1 !! outfile (ctx m1) = Some (bytes_written t))
      by (rewrite Hp1, Hfs; apply lookup_insert_eq).
    assert (Hnow1 : now m1 = (now m + length t)%nat)
      by (unfold now; rewrite Ht, length_app; reflexivity).
    pose proof (cleanup_unlinks m1 _ Hc1 Hf1 Hs1) as H. simpl in H. fold m2 in H.
    rewrite Hp1, Hnow1 in H.
    destruct H as (Hs2 & Hpath & Hmb & Hv & H).
    split; [exact Hs2|]. split; [exact Hpath|].
    split; [rewrite Hmb, Hctx; reflexivity|].
    split; [rewrite Hv, Hctx; reflexivity|].
    destruct (fault e (now m + length t)).
    + destruct H as (H1 & H2 & H3 & H4). rewrite H1, H2, Ht, Hfs, <- app_assoc.
      repeat split; assumption.
    + destruct H as (H1 & H2 & H3 & H4). rewrite H1, H2, Ht, Hfs, <- app_assoc.
      rewrite delete_insert_eq. repeat split; assumption.
Qed.

End Pipeline.

(** ** Whole runs *)

Section Runs.

Variable e : Env.

Lemma run_unfold argv fs0 p m0 :
  parseArgs argv (boot fs0) = (Ok p, m0) ->
  run e argv fs0 = if valid p then guarded_pipeline e m0 else (Ok 1, m0).
Proof.
  intros H. unfold run, main. unfold bind at 1. rewrite H.
  destruct (valid p); reflexivity.
Qed.

Lemma parsed_boot p lines fs0 :
  let m0 := parsed p lines (boot fs0) in
  sync e m0 /\ ostrm m0 = None /\ now m0 = O /\ trace m0 = [] /\ fs m0 = fs0 /\
  ctx m0 = p /\ stderr m0 = lines /\ interrupted m0 = false /\ fdtab m0 = None.
Proof. repeat split. Qed.

End Runs.

(** * The claims *)

(** ** Argument errors *)

(** C8. Invoking the program with no path argument, or with an output path
    that is empty or begins with a dash, is a usage error: [main] returns 1,
    the usage text is printed with its banner, no operation on the file
    system has taken place (the trace is empty, so nothing was opened or
    created) and the file system is as it was. *)
Theorem C8_bad_arguments (e : Env) (argv : list string) (fs0 : gmap string (list byte)) :
  (length argv < 2)%nat \/ nth 1 argv "" = "" \/ first_is_dash (nth 1 argv "") = true ->
  exists m,
    run e argv fs0 = (Ok 1, m) /\
    valid (ctx m) = false /\ outfileCreated (ctx m) = false /\
    trace m = [] /\ fs m = fs0 /\
    stderr m = usage_lines argv true.
Proof.
  intros H.
  destruct (Nat.lt_ge_cases (length argv) 2%nat) as [Hlen | Hlen].
  - eexists. split.
    + rewrite (run_unfold e argv fs0 _ _ (parseArgs_too_few argv (boot fs0) Hlen)).
      reflexivity.
    + repeat split.
  - assert (Hp : good_path (nth 1 argv "") = false).
    { destruct H as [H | [H | H]]; [lia | |]; unfold good_path.
      - rewrite H. reflexivity.
      - rewrite H. now rewrite orb_true_r. }
    eexists. split.
    + rewrite (run_unfold e argv fs0 _ _ (parseArgs_bad_path argv (boot fs0) Hlen Hp)).
      reflexivity.
    + repeat split.
Qed.

Lemma C8_bad_arguments_witness :
  ((length ["sbench"; "-x"] < 2)%nat \/ nth 1 ["sbench"; "-x"] "" = ""
   \/ first_is_dash (nth 1 ["sbench"; "-x"] "") = true) /\
  exists m,
    run quiet ["sbench"; "-x"] ∅ = (Ok 1, m) /\
    valid (ctx m) = false /\ outfileCreated (ctx m) = false /\
    trace m = [] /\ fs m = ∅ /\
    stderr m = usage_lines ["sbench"; "-x"] true.
Proof.
  assert (H : (length ["sbench"; "-x"] < 2)%nat \/ nth 1 ["sbench"; "-x"] "" = ""
              \/ first_is_dash (nth 1 ["sbench"; "-x"] "") = true)
    by (right; right; reflexivity).
  split; [exact H | exact (C8_bad_arguments quiet ["sbench"; "-x"] ∅ H)].
Defined.

(** C9. When the size argument is omitted (at most the path is given) the
    configuration [parseArgs] returns holds the default size 2048, and with
    an acceptable output path it is valid.  When the size argument is present
    and the output path is acceptable, a size that [std::stol] rejects, or
    whose value is not positive, or after which characters are left (as for
    "abc", where nothing converts) makes the run a usage error: [main]
    returns 1 (not 0, and not the 2 of a size that is valid but too small),
    nothing has happened on the file system, and the diagnostic stream holds
    the parse message and the usage line without the banner. *)
Theorem C9_size_argument (e : Env) (argv : list string) (fs0 : gmap string (list byte)) :
  let s := nth 2 argv "" in
  ((length argv <= 2)%nat ->
     exists p m0,
       parseArgs argv (boot fs0) = (Ok p, m0) /\ mb p = 2048 /\
       (length argv = 2%nat -> good_path (nth 1 argv "") = true ->
        p = mkContext (nth 1 argv "") 2048 true false))
  /\
  ((2 < length argv)%nat ->
   good_path (nth 1 argv "") = true ->
   stol s = InvalidArgument \/ stol s = OutOfRange \/
   (exists v pos, stol s = Parsed v pos /\ (v <= 0 \/ (pos < String.length s)%nat)) ->
   exists what m,
     run e argv fs0 = (Ok 1, m) /\ 1 <> 0 /\
     trace m = [] /\ fs m = fs0 /\ valid (ctx m) = false /\
     stderr m = parse_error_line what :: usage_lines argv false /\
     ~ In banner_line (stderr m) /\
     forall m', total_bytes (ctx m') < BUFSZ -> outfileCreated (ctx m') = false ->
                fst (guarded_pipeline e m') = Ok 2 /\
                fst (guarded_pipeline e m') <> fst (run e argv fs0)).
Proof.
  intros s. split.
  - intros Hle.
    destruct (Nat.lt_ge_cases (length argv) 2%nat) as [Hlen | Hlen].
    { eexists _, _. split; [apply parseArgs_too_few; exact Hlen|].
      split; [reflexivity|]. intros H2; lia. }
    assert (H2 : length argv = 2%nat) by lia.
    destruct (good_path (nth 1 argv "")) eqn:Hp.
    + eexists _, _. split; [apply (parseArgs_default_size argv (boot fs0) H2 Hp)|].
      split; reflexivity.
    + eexists _, _. split; [apply (parseArgs_bad_path argv (boot fs0) Hlen Hp)|].
      split; [reflexivity | discriminate].
  - intros Hgt Hp Hbad.
    assert (Hs : exists what, size_of_arg s = inl what).
    { unfold size_of_arg. destruct Hbad as [H | [H | (v & pos & H & Hv)]]; rewrite H.
      - eexists; reflexivity.
      - eexists; reflexivity.
      - destruct (v <=? 0) eqn:Hle; [eexists; reflexivity|].
        apply Z.leb_gt in Hle. destruct Hv as [Hv | Hv]; [lia|].
        apply Nat.ltb_lt in Hv. rewrite Hv. eexists; reflexivity. }
    destruct Hs as (what & Hs).
    pose proof (parseArgs_size_bad argv what (boot fs0) Hgt Hp Hs) as Hparse.
    simpl in Hparse.
    assert (Hrun : run e argv fs0 =
                   (Ok 1, parsed (mkContext (nth 1 argv "") (2 * 1024) false false)
                            (parse_error_line what :: usage_lines argv false) (boot fs0))).
    { rewrite (run_unfold e argv fs0 _ _ Hparse). reflexivity. }
    exists what. eexists. split; [exact Hrun|].
    split; [lia|]. repeat split.
    + simpl. unfold usage_lines. intros [H | [H | []]]; discriminate H.
    + rewrite (guarded_pipeline_invalid_size e m' H H0). reflexivity.
    + rewrite (guarded_pipeline_invalid_size e m' H H0), Hrun. simpl. discriminate.
Qed.

Lemma C9_size_argument_witness :
  stol "abc" = InvalidArgument /\
  (exists p m0,
     parseArgs ["sbench"; "/tmp/t1"] (boot ∅) = (Ok p, m0) /\ mb p = 2048 /\
     (length ["sbench"; "/tmp/t1"] = 2%nat -> good_path (nth 1 ["sbench"; "/tmp/t1"] "") = true ->
      p = mkContext "/tmp/t1" 2048 true false)) /\
  (exists what m,
     run quiet ["sbench"; "/tmp/t1"; "abc"] ∅ = (Ok 1, m) /\ 1 <> 0 /\
     trace m = [] /\ fs m = ∅ /\ valid (ctx m) = false /\
     stderr m = parse_error_line what :: usage_lines ["sbench"; "/tmp/t1"; "abc"] false /\
     ~ In banner_line (stderr m) /\
     forall m', total_bytes (ctx m') < BUFSZ -> outfileCreated (ctx m') = false ->
                fst (guarded_pipeline quiet m') = Ok 2 /\
                fst (guarded_pipeline quiet m')
                  <> fst (run quiet ["sbench"; "/tmp/t1"; "abc"] ∅)).
Proof.
  split; [reflexivity|]. split.
  - apply (proj1 (C9_size_argument quiet ["sbench"; "/tmp/t1"] ∅)).
    simpl. lia.
  - apply (proj2 (C9_size_argument quiet ["sbench"; "/tmp/t1"; "abc"] ∅)).
    + simpl. lia.
    + reflexivity.
    + left. reflexivity.
Defined.

(** The size argument "abc" after the unacceptable path "-x": [parseArgs]
    stops at the path, and the usage text comes with its banner and without
    any message about the size. *)
Lemma C9_bad_path_shows_banner :
  stol "abc" = InvalidArgument /\
  exists m,
    run quiet ["sbench"; "-x"; "abc"] ∅ = (Ok 1, m) /\
    stderr m = usage_lines ["sbench"; "-x"; "abc"] true /\
    In banner_line (stderr m).
Proof.
  split; [reflexivity|]. eexists. split; [|split].
  - rewrite (run_unfold quiet _ ∅ _ _
               (parseArgs_bad_path ["sbench"; "-x"; "abc"] (boot ∅)
                  (le_S 2 2 (le_n 2)) eq_refl)).
    reflexivity.
  - reflexivity.
  - left. reflexivity.
Qed.

(** ** Signals and the loops *)

Section Loops.

Variable e : Env.

Lemma signalled_mono a b :
  (a <= b)%nat -> signalled e a = true -> signalled e b = true.
Proof.
  induction 1 as [|b Hle IH]; [auto|].
  intros H. simpl. rewrite (IH H). reflexivity.
Qed.

Lemma signalled_false_before a b :
  (a <= b)%nat -> signalled e b = false -> signalled e a = false.
Proof.
  intros Hle Hb. destruct (signalled e a) eqn:Ha; [|reflexivity].
  rewrite (signalled_mono a b Hle Ha) in Hb. discriminate.
Qed.

Lemma signalled_none :
  (forall t, sig_at e t = None) -> forall n, signalled e n = false.
Proof.
  intros H. induction n as [|n IH]; [reflexivity|].
  simpl. rewrite IH, H. reflexivity.
Qed.

(** When the first signal arrives during operation [t], the flag is seen set
    exactly by the looks that come after that operation. *)
Lemma signalled_first t sig :
  sig_at e t = Some sig ->
  (forall t', (t' < t)%nat -> sig_at e t' = None) ->
  forall n, signalled e n = (t <? n)%nat.
Proof.
  intros Ht Hbefore. induction n as [|n IH]; [reflexivity|].
  simpl. rewrite IH.
  destruct (Nat.lt_trichotomy n t) as [Hlt | [Heq | Hgt]].
  - rewrite (Hbefore n Hlt). simpl.
    destruct (Nat.ltb_spec t n); destruct (Nat.ltb_spec t (S n)); try reflexivity; lia.
  - subst n. rewrite Ht. simpl. rewrite orb_true_r.
    symmetry. apply Nat.ltb_lt. lia.
  - assert (H1 : (t <? n)%nat = true) by (apply Nat.ltb_lt; lia).
    assert (H2 : (t <? S n)%nat = true) by (apply Nat.ltb_lt; lia).
    rewrite H1, H2. reflexivity.
Qed.

Lemma BUFSZ_nat_pos : (0 < BUFSZ_nat)%nat.
Proof. unfold BUFSZ_nat. change BUFSZ with 1048576. lia. Qed.

Lemma le_bytes_length n w : length (le_bytes n w) = n.
Proof. revert w. induction n as [|n IH]; intros w; simpl; [reflexivity | now rewrite IH]. Qed.

Lemma flat_map_length_const {A B} (f : A -> list B) (k : nat) (l : list A) :
  (forall x, length (f x) = k) -> length (flat_map f l) = (k * length l)%nat.
Proof.
  intros H. induction l as [|x l IH]; simpl; [lia|].
  rewrite length_app, H, IH. lia.
Qed.

(** The buffer holds exactly [BUFSZ] bytes. *)
Lemma random_buffer_length : length (random_buffer e) = BUFSZ_nat.
Proof.
  unfold random_buffer.
  rewrite (flat_map_length_const _ 8%nat).
  - rewrite length_seq. unfold BUFSZ_nat.
    change (BUFSZ / 8) with 131072. change BUFSZ with 1048576. lia.
  - intros i. apply le_bytes_length.
Qed.

#[global] Opaque random_buffer.

(** How far the write loop gets. *)
Lemma WriteLoop_stops path buf n c t :
  WriteLoop e path buf n c t false ->
  exists k, t = repeat (EvWrite path buf true) k /\ (k <= n)%nat /\
            (k < n -> signalled e (c + k) = true)%nat /\
            (forall j, j < k -> signalled e (c + j) = false)%nat.
Proof.
  intros H. remember false as threw eqn:Hthrew in H.
  induction H as [c | n c Hs | n c Hs Hf | n c t threw Hs Hf H IH]; try discriminate.
  - exists O. repeat split; lia.
  - exists O. repeat split; try lia. intros _. now rewrite Nat.add_0_r.
  - destruct (IH Hthrew) as (k & -> & Hk & Hstop & Hrun).
    exists (S k). repeat split; try lia.
    + intros Hlt. replace (c + S k)%nat with (S c + k)%nat by lia. apply Hstop. lia.
    + intros j Hj. destruct j as [|j]; [now rewrite Nat.add_0_r|].
      replace (c + S j)%nat with (S c + j)%nat by lia. apply Hrun. lia.
Qed.

(** A write loop that nothing interrupts writes every buffer. *)
Lemma WriteLoop_complete path buf n c t :
  WriteLoop e path buf n c t false ->
  signalled e (c + length t) = false ->
  t = repeat (EvWrite path buf true) n.
Proof.
  intros H Hs. destruct (WriteLoop_stops _ _ _ _ _ H) as (k & -> & Hk & Hstop & _).
  rewrite repeat_length in Hs.
  destruct (Nat.eq_dec k n) as [-> | Hne]; [reflexivity|].
  rewrite Hstop in Hs by lia. discriminate.
Qed.

Lemma WriteLoop_no_fault path buf n c t threw :
  (forall j, fault e j = false) ->
  WriteLoop e path buf n c t threw -> threw = false.
Proof.
  intros Hnf. induction 1 as [| | n c Hs Hf |]; auto.
  rewrite Hnf in Hf. discriminate.
Qed.

Lemma count_writes_repeat path buf k :
  count_writes (repeat (EvWrite path buf true) k) = k.
Proof.
  unfold count_writes in *. induction k as [|k IH]; simpl; [reflexivity|].
  now rewrite IH.
Qed.

Lemma bytes_written_repeat path buf k :
  bytes_written (repeat (EvWrite path buf true) k) = concat (repeat buf k).
Proof.
  unfold bytes_written. induction k as [|k IH]; simpl; [reflexivity | now rewrite IH].
Qed.

Lemma concat_repeat_length (buf : list byte) k :
  length (concat (repeat buf k)) = (k * length buf)%nat.
Proof.
  induction k as [|k IH]; simpl; [reflexivity|]. rewrite length_app, IH. lia.
Qed.

Lemma take_drop_length (n : nat) (l : list byte) :
  drop (length (take n l)) l = drop n l.
Proof.
  rewrite length_take. destruct (Nat.le_gt_cases n (length l)) as [H | H].
  - now rewrite Nat.min_l.
  - rewrite Nat.min_r by lia. rewrite !drop_ge by lia. reflexivity.
Qed.

Lemma wrap_add_l a b : wrap_size_t (wrap_size_t a + b) = wrap_size_t (a + b).
Proof. unfold wrap_size_t. now rewrite Zplus_mod_idemp_l. Qed.

Lemma wrap_wrap a : wrap_size_t (wrap_size_t a) = wrap_size_t a.
Proof. unfold wrap_size_t. apply Zmod_mod. Qed.

(** A read loop in which no [read] fails and which no signal stops reads the
    rest of the file. *)
Lemma ReadLoop_reads_all content off c count t count' :
  ReadLoop e content off c count t count' ->
  existsb is_read_failure t = false ->
  count = wrap_size_t count ->
  signalled e (c + length t) = false ->
  bytes_read t = drop off content /\
  count' = wrap_size_t (count + Z.of_nat (length (drop off content))) /\
  exists t', t = t' ++ [EvRead 3 [] 0].
Proof.
  intros H.
  induction H as [off c count Hf | off c count Hf Hd | off c count data Hf Hd Hne Hs
                  | off c count data t count' Hf Hd Hne Hs H IH]; intros Hok Hcount Hsig.
  - discriminate Hok.
  - assert (Hnil : drop off content = []).
    { destruct (drop off content) as [|b l] eqn:E; [reflexivity|].
      pose proof BUFSZ_nat_pos as Hpos. destruct BUFSZ_nat; [lia | discriminate Hd]. }
    rewrite Hnil. simpl. split; [reflexivity|]. split.
    + now rewrite Z.add_0_r.
    + exists []. reflexivity.
  - simpl in Hsig. replace (c + 1)%nat with (S c) in Hsig by lia. congruence.
  - simpl in Hsig. replace (c + S (length t))%nat with (S c + length t)%nat in Hsig by lia.
    assert (Hok' : existsb is_read_failure t = false).
    { simpl in Hok. apply orb_false_iff in Hok. apply Hok. }
    destruct (IH Hok' (eq_sym (wrap_wrap _)) Hsig) as (Hb & Hc & t' & Ht').
    assert (Hdrop : drop (off + length data) content = drop BUFSZ_nat (drop off content)).
    { rewrite <- (take_drop_length BUFSZ_nat (drop off content)), <- Hd, drop_drop.
      reflexivity. }
    split; [|split].
    + unfold bytes_read in *. simpl. rewrite Hb, Hdrop, Hd. apply take_drop.
    + rewrite Hc, wrap_add_l, Hdrop. f_equal.
      rewrite <- (take_drop BUFSZ_nat (drop off content)) at 2.
      rewrite length_app, <- Hd. lia.
    + exists (EvRead 3 data (Z.of_nat (length data)) :: t'). rewrite Ht'. reflexivity.
Qed.

Lemma ReadLoop_no_fault content off c count t count' :
  (forall j, fault e j = false) ->
  ReadLoop e content off c count t count' -> existsb is_read_failure t = false.
Proof.
  intros Hnf.
  induction 1 as [off c count Hf | off c count Hf Hd | off c count data Hf Hd Hne Hs
                  | off c count data t count' Hf Hd Hne Hs H IH].
  - rewrite Hnf in Hf. discriminate.
  - reflexivity.
  - simpl. rewrite orb_false_r. apply Z.ltb_ge. lia.
  - simpl. rewrite IH, orb_false_r. apply Z.ltb_ge. lia.
Qed.

Lemma ReadLoop_all content off c count t count' :
  ReadLoop e content off c count t count' ->
  (forall j, fault e j = false) ->
  count = wrap_size_t count ->
  signalled e (c + length t) = false ->
  bytes_read t = drop off content /\
  count' = wrap_size_t (count + Z.of_nat (length (drop off content))) /\
  exists t', t = t' ++ [EvRead 3 [] 0].
Proof.
  intros H Hnf. apply ReadLoop_reads_all; [exact H|].
  eapply ReadLoop_no_fault; eassumption.
Qed.

End Loops.

(** ** Sizes *)

Lemma total_bytes_range p : 0 <= total_bytes p < 2 ^ 64.
Proof. unfold total_bytes, wrap_size_t. apply Z.mod_pos_bound. lia. Qed.

Lemma turns_bound p : Z.of_nat (turns p) * BUFSZ <= total_bytes p.
Proof.
  unfold turns. pose proof (total_bytes_range p) as H.
  change BUFSZ with 1048576 in *.
  rewrite Z2Nat.id by (apply Z.div_pos; lia).
  pose proof (Z.mul_div_le (total_bytes p) 1048576). lia.
Qed.

Lemma turns_pos p : BUFSZ <= total_bytes p -> (1 <= turns p)%nat.
Proof.
  unfold turns. change BUFSZ with 1048576. intros H.
  assert (1 <= total_bytes p / 1048576) by (apply Z.div_le_lower_bound; lia).
  lia.
Qed.

(** Below 2^44 megabytes the product does not wrap: the loop makes one turn
    for every megabyte asked for. *)
Lemma turns_in_range p :
  0 <= mb p < 2 ^ 44 ->
  total_bytes p = mb p * MB /\ Z.of_nat (turns p) = mb p * MB / BUFSZ /\
  mb p * MB / BUFSZ = mb p.
Proof.
  intros H. unfold turns, total_bytes, wrap_size_t.
  change MB with 1048576. change BUFSZ with 1048576.
  rewrite Z.mod_small by lia.
  rewrite Z.div_mul by lia.
  repeat split. lia.
Qed.

(** ** Runs that nothing disturbs *)

Section Undisturbed.

Variable e : Env.

Lemma WritePhase_zero path buf n c t :
  WritePhase e path buf n c t 0 ->
  t = [EvOpenW path true; EvRandom] ++ repeat (EvWrite path buf true) n
        ++ [EvFlush path true; EvCloseW path true] /\
  fault e c = false /\ signalled e (c + 4 + n) = false.
Proof.
  intros H. inversion H as [| | | |t0 Hf0 HL Hf1 Hf2 Ht Hcode]; subst.
  destruct (signalled e (c + 4 + length t0)) eqn:Hs; [discriminate|].
  assert (Hs' : signalled e (c + 2 + length t0) = false)
    by (apply signalled_false_before with (b := (c + 4 + length t0)%nat); [lia | exact Hs]).
  pose proof (WriteLoop_complete e _ _ _ _ _ HL Hs') as Ht0.
  assert (Hlen : length t0 = n) by (rewrite Ht0; apply repeat_length).
  rewrite Hlen in Hs. rewrite <- Ht0. repeat split; assumption.
Qed.

Lemma WritePhase_undisturbed path buf n c t code :
  undisturbed e ->
  WritePhase e path buf n c t code -> code = 0.
Proof.
  intros (Hnf & Hns & _) H.
  destruct H as [Hf | t Hf HL | t Hf HL Hf1 | t Hf HL Hf1 Hf2 | t Hf HL Hf1 Hf2];
    try (rewrite Hnf in *; discriminate).
  - pose proof (WriteLoop_no_fault e _ _ _ _ _ _ Hnf HL). discriminate.
  - now rewrite (signalled_none e Hns).
Qed.

Lemma ReadPhase_undisturbed path data c t code :
  undisturbed e ->
  data <> [] -> Z.of_nat (length data) < 2 ^ 64 ->
  ReadPhase e path (Some data) c t code ->
  code = 0 /\
  exists reads,
    t = [EvSystem purge_command 0; EvOpenR path 3; EvFcntl 3 0] ++ reads ++ [EvClose 3] /\
    Forall (fun ev => is_read_event ev = true) reads /\
    bytes_read reads = data.
Proof.
  intros (Hnf & Hns & Hp) Hne Hlen H.
  destruct H as [Hp' | _ [Hc | Hf] | _ _ _ Hf | data' reads count _ Hd _ _ HL];
    try congruence; try (rewrite Hnf in Hf; discriminate).
  injection Hd as <-.
  rewrite (signalled_none e Hns).
  destruct (ReadLoop_all e _ _ _ _ _ _ HL Hnf eq_refl (signalled_none e Hns _))
    as (Hb & Hc & _).
  rewrite drop_0 in Hb, Hc. simpl in Hc.
  assert (Hcount : count <> 0).
  { rewrite Hc. unfold wrap_size_t. rewrite Z.mod_small by lia.
    destruct data; [congruence | simpl; lia]. }
  apply Z.eqb_neq in Hcount. rewrite Hcount.
  split; [reflexivity|]. exists reads. repeat split.
  - eapply ReadLoop_kind. exact HL.
  - exact Hb.
Qed.

(** The whole pipeline when nothing disturbs it: every buffer is written,
    the file is read back in full and removed, and [main] returns 0. *)
Lemma undisturbed_run m :
  undisturbed e ->
  sync e m -> ostrm m = None -> outfileCreated (ctx m) = false ->
  BUFSZ <= total_bytes (ctx m) ->
  let path := outfile (ctx m) in
  let buf := random_buffer e in
  let n := turns (ctx m) in
  exists reads m2,
    guarded_pipeline e m = (Ok 0, m2) /\
    trace m2 = trace m
      ++ ([EvOpenW path true; EvRandom] ++ repeat (EvWrite path buf true) n
            ++ [EvFlush path true; EvCloseW path true])
      ++ ([EvSystem purge_command 0; EvOpenR path 3; EvFcntl 3 0] ++ reads ++ [EvClose 3])
      ++ [EvUnlink path 0] /\
    Forall (fun ev => is_read_event ev = true) reads /\
    bytes_read reads = concat (repeat buf n) /\
    fs m2 = delete path (fs m) /\
    outfile (ctx m2) = path /\ mb (ctx m2) = mb (ctx m).
Proof.
  intros Hu Hs Ho Hc HN path buf n.
  destruct (guarded_pipeline_shape e m Hs Ho HN Hc)
    as (t & code & m1 & HP & _ & _ & Hrun & _ & Hpath & Hmb & _ & Hcases).
  fold path in HP, Hpath, Hcases. fold buf n in HP.
  destruct Hu as (Hnf & Hns & Hp).
  rewrite !Hnf in Hcases. destruct Hcases as (Ht & Hfs & _ & _).
  destruct HP as [tw code HW Hcode | tw tr code HW HR].
  - exfalso. apply Hcode.
    eapply WritePhase_undisturbed; [repeat split; assumption | exact HW].
  - destruct (WritePhase_zero _ _ _ _ _ HW) as (Htw & _ & _).
    assert (Hdata : bytes_written tw = concat (repeat buf n)).
    { rewrite Htw, !bytes_written_app, bytes_written_repeat. simpl. now rewrite app_nil_r. }
    pose proof (turns_pos (ctx m) HN) as Hn1. fold n in Hn1.
    pose proof (turns_bound (ctx m)) as Hn2. fold n in Hn2.
    pose proof (total_bytes_range (ctx m)) as Hn3.
    pose proof (random_buffer_length e) as Hbl. fold buf in Hbl.
    assert (Hlen : Z.of_nat (length (concat (repeat buf n))) = Z.of_nat n * BUFSZ).
    { rewrite concat_repeat_length, Hbl. unfold BUFSZ_nat.
      change BUFSZ with 1048576. lia. }
    rewrite Hdata in HR.
    destruct (ReadPhase_undisturbed path _ _ _ _ ltac:(repeat split; assumption)
                ltac:(intros E; rewrite E in Hlen; simpl in Hlen;
                      change BUFSZ with 1048576 in Hlen; lia)
                ltac:(lia) HR) as (-> & reads & -> & Hk & Hb).
    exists reads. eexists. split; [exact Hrun|].
    split; [rewrite Ht, Htw, <- !app_assoc; reflexivity|].
    repeat split; assumption.
Qed.

End Undisturbed.

(** ** What is written and what is read back *)

Section RoundTrip.

Variable e : Env.

Lemma bytes_read_app t1 t2 : bytes_read (t1 ++ t2) = bytes_read t1 ++ bytes_read t2.
Proof. unfold bytes_read. apply flat_map_app. Qed.

Lemma count_writes_app t1 t2 :
  count_writes (t1 ++ t2) = (count_writes t1 + count_writes t2)%nat.
Proof. unfold count_writes. now rewrite List.filter_app, length_app. Qed.

Lemma bytes_read_repeat_write path buf k :
  bytes_read (repeat (EvWrite path buf true) k) = [].
Proof. unfold bytes_read. induction k as [|k IH]; simpl; auto. Qed.

Lemma read_events_write_nothing t :
  Forall (fun ev => is_read_event ev = true) t ->
  bytes_written t = [] /\ count_writes t = O.
Proof.
  unfold bytes_written, count_writes.
  induction 1 as [|ev t Hev _ [IH1 IH2]]; [split; reflexivity|].
  simpl. rewrite IH1. destruct ev; try discriminate; simpl; auto.
Qed.

Lemma write_trace_measure path (buf : list byte) n :
  let t := [EvOpenW path true; EvRandom] ++ repeat (EvWrite path buf true) n
             ++ [EvFlush path true; EvCloseW path true] in
  count_writes t = n /\ bytes_written t = concat (repeat buf n) /\ bytes_read t = [].
Proof.
  intros t. subst t.
  rewrite !count_writes_app, !bytes_written_app, !bytes_read_app.
  rewrite count_writes_repeat, bytes_written_repeat, bytes_read_repeat_write.
  unfold count_writes, bytes_written, bytes_read. simpl.
  rewrite app_nil_r. repeat split. lia.
Qed.

(** The write phase, when it returns 0, has written one buffer of [BUFSZ]
    bytes for every turn of its loop and nothing else. *)
Lemma doWrite_writes_whole_buffers m m1 :
  sync e m -> ostrm m = None ->
  doWrite e m = (Ok 0, m1) ->
  let path := outfile (ctx m) in
  let buf := random_buffer e in
  let n := turns (ctx m) in
  trace m1 = trace m ++ [EvOpenW path true; EvRandom] ++ repeat (EvWrite path buf true) n
               ++ [EvFlush path true; EvCloseW path true] /\
  fs m1 !! path = Some (concat (repeat buf n)) /\
  Z.of_nat (length buf) = BUFSZ /\
  Z.of_nat (length (concat (repeat buf n))) = Z.of_nat n * BUFSZ.
Proof.
  intros Hs Ho Hrun path buf n.
  destruct (Z.lt_ge_cases (total_bytes (ctx m)) BUFSZ) as [HN | HN].
  { rewrite (doWrite_invalid_size e m HN) in Hrun. discriminate. }
  destruct (doWrite_shape e m Hs Ho HN) as (t & code & m1' & HW & Hrun' & Ht & _ & _ & _ & _ & Hfs).
  rewrite Hrun in Hrun'. injection Hrun' as <- <-.
  fold path buf n in HW, Hfs.
  destruct (WritePhase_zero e _ _ _ _ _ HW) as (Htw & Hf0 & _).
  rewrite Hf0 in Hfs.
  assert (Hbl : Z.of_nat (length buf) = BUFSZ).
  { unfold buf. rewrite random_buffer_length. unfold BUFSZ_nat.
    change BUFSZ with 1048576. lia. }
  split; [rewrite Ht, Htw; reflexivity|].
  split; [|split; [exact Hbl|]].
  - rewrite Hfs, lookup_insert_eq, Htw, !bytes_written_app, bytes_written_repeat. simpl.
    now rewrite app_nil_r.
  - rewrite concat_repeat_length. lia.
Qed.

(** When nothing disturbs the run, what the read phase reads back is what
    the write phase wrote, a whole number of buffers. *)
Lemma round_trip_undisturbed m :
  undisturbed e ->
  sync e m -> ostrm m = None -> outfileCreated (ctx m) = false ->
  BUFSZ <= total_bytes (ctx m) ->
  exists m2 t,
    guarded_pipeline e m = (Ok 0, m2) /\
    trace m2 = trace m ++ t /\
    bytes_read t = bytes_written t /\
    count_writes t = turns (ctx m) /\
    Z.of_nat (length (bytes_read t)) = Z.of_nat (turns (ctx m)) * BUFSZ /\
    fs m2 = delete (outfile (ctx m)) (fs m) /\ mb (ctx m2) = mb (ctx m).
Proof.
  intros Hu Hs Ho Hc HN.
  destruct (undisturbed_run e m Hu Hs Ho Hc HN) as (reads & m2 & Hrun & Ht & Hk & Hb & Hfs & _ & Hmb).
  destruct (read_events_write_nothing reads Hk) as (Hw0 & Hc0).
  exists m2. eexists. split; [exact Hrun|]. split; [exact Ht|].
  rewrite !bytes_read_app, !bytes_written_app, !count_writes_app.
  rewrite bytes_read_repeat_write, bytes_written_repeat, count_writes_repeat, Hb, Hw0, Hc0.
  simpl. rewrite !app_nil_r.
  repeat split; try assumption.
  - unfold count_writes. simpl. lia.
  - rewrite concat_repeat_length, random_buffer_length. unfold BUFSZ_nat.
    change BUFSZ with 1048576. lia.
Qed.

End RoundTrip.

(** ** Sizes that are too small, and sizes that wrap *)

Lemma quiet_undisturbed : undisturbed quiet.
Proof. repeat split. Qed.





(** The command line [sbench /tmp/t1 17592186044417] asks for 2^44 + 1
    megabytes. *)
Lemma huge_size_parse fs0 :
  parseArgs ["sbench"; "/tmp/t1"; "17592186044417"] (boot fs0) =
    (Ok (mkContext "/tmp/t1" (2 ^ 44 + 1) true false),
     parsed (mkContext "/tmp/t1" (2 ^ 44 + 1) true false) [] (boot fs0)).
Proof.
  apply (parseArgs_size_ok ["sbench"; "/tmp/t1"; "17592186044417"] (2 ^ 44 + 1));
    [simpl; lia | reflexivity | reflexivity].
Qed.

Lemma huge_size_total :
  total_bytes (mkContext "/tmp/t1" (2 ^ 44 + 1) true false) = BUFSZ /\
  turns (mkContext "/tmp/t1" (2 ^ 44 + 1) true false) = 1%nat.
Proof. split; reflexivity. Qed.

(** C2. The run [sbench /tmp/t1 17592186044417] in an environment where
    nothing fails: the write phase returns 0, without error and without
    interruption, having written one buffer, whereas the quotient of
    [sizeMB * MB] by [BUFSZ] is 2^44 + 1. *)
Theorem C2_write_count_wraps :
  let p := mkContext "/tmp/t1" (2 ^ 44 + 1) true false in
  let m0 := parsed p [] (boot ∅) in
  parseArgs ["sbench"; "/tmp/t1"; "17592186044417"] (boot ∅) = (Ok p, m0) /\
  0 < mb p /\
  exists m1,
    doWrite quiet m0 = (Ok 0, m1) /\
    count_writes (trace m1) = 1%nat /\
    Z.of_nat (length (bytes_written (trace m1))) = BUFSZ /\
    mb p * MB / BUFSZ = 2 ^ 44 + 1 /\
    Z.of_nat (count_writes (trace m1)) <> mb p * MB / BUFSZ.
Proof.
  intros p m0. split; [apply huge_size_parse|]. split; [reflexivity|].
  destruct (parsed_boot quiet p [] ∅) as (Hs & Ho & _ & Ht0 & _).
  fold m0 in Hs, Ho, Ht0.
  assert (HN : BUFSZ <= total_bytes (ctx m0)) by (vm_compute; discriminate).
  destruct (doWrite_shape quiet m0 Hs Ho HN) as (t & code & m1 & HW & Hrun & Ht & _).
  pose proof (WritePhase_undisturbed quiet _ _ _ _ _ _ quiet_undisturbed HW) as ->.
  destruct (doWrite_writes_whole_buffers quiet m0 m1 Hs Ho Hrun) as (Htr & _ & _ & Hlen).
  destruct (write_trace_measure (outfile (ctx m0)) (random_buffer quiet) (turns (ctx m0)))
    as (Hcw & Hbw & _).
  destruct huge_size_total as (_ & Hturns). fold p in Hturns.
  assert (Hq : mb p * MB / BUFSZ = 2 ^ 44 + 1) by reflexivity.
  exists m1. split; [exact Hrun|].
  rewrite Htr, Ht0, app_nil_l, Hcw, Hbw, Hlen, Hq.
  change (ctx m0) with p. rewrite Hturns.
  repeat split; lia.
Qed.

(** The same run to its end: [main] returns 0, the bytes read back are the
    bytes written, and there are [BUFSZ] of them, whereas
    [sizeMB * MB / BUFSZ * BUFSZ] is (2^44 + 1) * 2^20. *)
Lemma round_trip_wraps :
  exists m,
    run quiet ["sbench"; "/tmp/t1"; "17592186044417"] ∅ = (Ok 0, m) /\
    bytes_read (trace m) = bytes_written (trace m) /\
    Z.of_nat (length (bytes_read (trace m))) = BUFSZ /\
    mb (ctx m) * MB / BUFSZ * BUFSZ = (2 ^ 44 + 1) * 2 ^ 20 /\
    Z.of_nat (length (bytes_read (trace m))) <> mb (ctx m) * MB / BUFSZ * BUFSZ.
Proof.
  set (p := mkContext "/tmp/t1" (2 ^ 44 + 1) true false).
  set (m0 := parsed p [] (boot ∅)).
  destruct (parsed_boot quiet p [] ∅) as (Hs & Ho & _ & Ht0 & _).
  fold m0 in Hs, Ho, Ht0.
  assert (HN : BUFSZ <= total_bytes (ctx m0)) by (vm_compute; discriminate).
  destruct (round_trip_undisturbed quiet m0 quiet_undisturbed Hs Ho eq_refl HN)
    as (m2 & t & Hrun & Ht & Hrt & _ & Hlen & _ & Hmb).
  exists m2.
  rewrite (run_unfold quiet _ ∅ _ _ (huge_size_parse ∅)). simpl.
  split; [exact Hrun|].
  rewrite Ht, Ht0, Hmb. simpl.
  change (turns (ctx m0)) with 1%nat in Hlen.
  assert (Hq : (2 ^ 44 + 1) * MB / BUFSZ * BUFSZ = (2 ^ 44 + 1) * 2 ^ 20) by reflexivity.
  rewrite Hq, Hlen. change BUFSZ with 1048576.
  repeat split; try assumption; lia.
Qed.

(** C10. [doWrite] computes the byte count modulo 2^64.  The command line
    [sbench /tmp/t1 17592186044416] (2^44 megabytes) is accepted by
    [parseArgs] with a positive size, the byte count is 0, and [main]
    returns the invalid-size code 2 without any operation; the command line
    [sbench /tmp/t1 17592186044417] runs to the end with code 0 when nothing
    fails, having written and read back a single buffer of one megabyte,
    and the diagnostic stream shows nothing but the removal notice. *)
Theorem C10_size_wraps :
  (forall p, total_bytes p = (mb p * 2 ^ 20) mod 2 ^ 64) /\
  (forall e fs0, exists m,
     run e ["sbench"; "/tmp/t1"; "17592186044416"] fs0 = (Ok 2, m) /\
     valid (ctx m) = true /\ mb (ctx m) = 2 ^ 44 /\ 0 < mb (ctx m) /\
     total_bytes (ctx m) = 0 /\ trace m = [] /\ fs m = fs0) /\
  (exists m,
     run quiet ["sbench"; "/tmp/t1"; "17592186044417"] ∅ = (Ok 0, m) /\
     mb (ctx m) = 2 ^ 44 + 1 /\
     count_writes (trace m) = 1%nat /\
     Z.of_nat (length (bytes_written (trace m))) = 2 ^ 20 /\
     Z.of_nat (length (bytes_written (trace m))) < mb (ctx m) * 2 ^ 20 /\
     stderr m = [removed_line "/tmp/t1"]).
Proof.
  assert (Hst : stderr (snd (run quiet ["sbench"; "/tmp/t1"; "17592186044417"] ∅))
                = [removed_line "/tmp/t1"]) by (vm_compute; reflexivity).
  split; [reflexivity|]. split.
  - intros e fs0.
    set (p := mkContext "/tmp/t1" (2 ^ 44) true false).
    assert (Hparse : parseArgs ["sbench"; "/tmp/t1"; "17592186044416"] (boot fs0) =
                     (Ok p, parsed p [] (boot fs0))).
    { apply (parseArgs_size_ok ["sbench"; "/tmp/t1"; "17592186044416"] (2 ^ 44));
        [simpl; lia | reflexivity | reflexivity]. }
    eexists. split.
    + rewrite (run_unfold e _ fs0 _ _ Hparse). simpl.
      apply guarded_pipeline_invalid_size; reflexivity.
    + repeat split.
  - set (p := mkContext "/tmp/t1" (2 ^ 44 + 1) true false).
    set (m0 := parsed p [] (boot ∅)).
    destruct (parsed_boot quiet p [] ∅) as (Hs & Ho & _ & Ht0 & _).
    fold m0 in Hs, Ho, Ht0.
    assert (HN : BUFSZ <= total_bytes (ctx m0)) by (vm_compute; discriminate).
    destruct (round_trip_undisturbed quiet m0 quiet_undisturbed Hs Ho eq_refl HN)
      as (m2 & t & Hrun & Ht & Hrt & Hcw & Hlen & _ & Hmb).
    exists m2.
    rewrite (run_unfold quiet _ ∅ _ _ (huge_size_parse ∅)) in Hst |- *. simpl in Hst |- *.
    fold p m0 in Hst. rewrite Hrun in Hst.
    split; [exact Hrun|].
    rewrite Ht, Ht0, Hmb. simpl.
    change (turns (ctx m0)) with 1%nat in Hlen, Hcw.
    rewrite <- Hrt, Hlen, Hcw. change BUFSZ with 1048576.
    repeat split; try lia. exact Hst.
Qed.

(** ** The clean-up guard *)

Section Cleanup.

Variable e : Env.

Lemma WritePhase_opens path buf n c t code p' ok :
  WritePhase e path buf n c t code ->
  In (EvOpenW p' ok) t -> p' = path /\ (ok = true -> fault e c = false).
Proof.
  intros H Hin.
  assert (Hloop : forall t0 threw k, WriteLoop e path buf n k t0 threw -> ~ In (EvOpenW p' ok) t0).
  { intros t0 threw k HL Hin0.
    pose proof (WriteLoop_events e _ _ _ _ _ _ HL) as Hev.
    rewrite Forall_forall in Hev. apply list_elem_of_In in Hin0.
    destruct (Hev _ Hin0); discriminate. }
  destruct H as [Hf | t Hf HL | t Hf HL Hf1 | t Hf HL Hf1 Hf2 | t Hf HL Hf1 Hf2];
    simpl in Hin; rewrite ?in_app_iff in Hin; simpl in Hin;
    repeat match goal with
           | H : _ \/ _ |- _ => destruct H
           | H : False |- _ => destruct H
           | H : EvOpenW _ _ = EvOpenW _ _ |- _ => injection H as <- <-
           | H : In (EvOpenW _ _) _ |- _ => exfalso; eapply Hloop; eassumption
           end;
    try discriminate; auto.
  split; [reflexivity | discriminate].
Qed.

Lemma Pipeline_no_unlink path buf n c t code :
  Pipeline e path buf n c t code -> Forall (fun ev => is_unlink_event ev = false) t.
Proof.
  intros [tw cw HW _ | tw tr cr HW HR].
  - eapply Forall_impl; [eapply WritePhase_kind; exact HW|].
    intros ev Hev. destruct ev; try discriminate; reflexivity.
  - apply Forall_app. split.
    + eapply Forall_impl; [eapply WritePhase_kind; exact HW|].
      intros ev Hev. destruct ev; try discriminate; reflexivity.
    + destruct (ReadPhase_kind e _ _ _ _ _ HR) as (tr' & -> & Hk).
      constructor; [reflexivity|].
      eapply Forall_impl; [exact Hk|].
      intros ev Hev. destruct ev; try discriminate; reflexivity.
Qed.

Lemma Pipeline_opens path buf n c t code p' ok :
  Pipeline e path buf n c t code ->
  In (EvOpenW p' ok) t -> p' = path /\ (ok = true -> fault e c = false).
Proof.
  intros [tw cw HW _ | tw tr cr HW HR] Hin.
  - eapply WritePhase_opens; eassumption.
  - apply in_app_iff in Hin. destruct Hin as [Hin | Hin].
    + eapply WritePhase_opens; eassumption.
    + exfalso. destruct (ReadPhase_kind e _ _ _ _ _ HR) as (tr' & -> & Hk).
      destruct Hin as [Hin | Hin]; [discriminate|].
      rewrite Forall_forall in Hk. apply list_elem_of_In in Hin.
      pose proof (Hk _ Hin). discriminate.
Qed.

End Cleanup.

(** C1. In every run in which the output file was opened for writing, the
    clean-up closure runs after the pipeline has concluded, whatever code
    the pipeline concluded with, and calls [unlink] on the output file, once
    (the trace ends with that call and holds no other).  When [unlink]
    succeeds the file is not there afterwards; when it fails the failure is
    on the diagnostic stream.  In both cases [main] returns the code of the
    pipeline. *)
Theorem C1_cleanup_runs_once
  (e : Env) (argv : list string) (fs0 : gmap string (list byte)) (path : string) :
  let r := run e argv fs0 in
  In (EvOpenW path true) (trace (snd r)) ->
  exists code t res,
    fst r = Ok code /\
    trace (snd r) = t ++ [EvUnlink path res] /\
    Forall (fun ev => is_unlink_event ev = false) t /\
    (res = 0 -> fs (snd r) !! path = None) /\
    (res <> 0 -> In (remove_failed_line path) (stderr (snd r))) /\
    exists p m0 m1,
      parseArgs argv (boot fs0) = (Ok p, m0) /\
      pipeline e m0 = (Ok code, m1) /\
      snd r = Defer_dtor (defer_RmOutfile e) m1.
Proof.
  intros r Hin. subst r.
  destruct (parseArgs_cases argv (boot fs0)) as (p & lines & Hparse & Hc & Hv).
  rewrite (run_unfold e argv fs0 _ _ Hparse) in *.
  destruct (valid p) eqn:Hvalid; [|destruct Hin].
  destruct (Hv eq_refl) as (-> & _).
  set (m0 := parsed p [] (boot fs0)) in *.
  destruct (parsed_boot e p [] fs0) as (Hs & Ho & Hnow & Ht0 & Hfs0 & Hctx & _).
  fold m0 in Hs, Ho, Hnow, Ht0, Hfs0, Hctx.
  destruct (Z.lt_ge_cases (total_bytes (ctx m0)) BUFSZ) as [HN | HN].
  { rewrite (guarded_pipeline_invalid_size e m0 HN) in Hin by (rewrite Hctx; exact Hc).
    simpl in Hin. destruct Hin. }
  destruct (guarded_pipeline_shape e m0 Hs Ho HN ltac:(rewrite Hctx; exact Hc))
    as (t & code & m1 & HP & Hpipe & Ht & Hrun & _ & _ & _ & _ & Hcases).
  rewrite Hrun in *. simpl in Hin |- *.
  rewrite Hnow, Ht0 in *. simpl in Hcases.
  destruct (fault e 0) eqn:Hf0.
  - exfalso. destruct Hcases as (Htr & _). rewrite Htr in Hin.
    destruct (Pipeline_opens e _ _ _ _ _ _ _ _ HP Hin) as (_ & Hok).
    rewrite Hf0 in Hok. discriminate (Hok eq_refl).
  - rewrite Hctx in *.
    assert (Hpath : outfile p = path).
    { symmetry.
      destruct (fault e (length t));
        destruct Hcases as (Htr & _); rewrite Htr in Hin;
        apply in_app_iff in Hin; destruct Hin as [Hin | [Hin | []]]; try discriminate;
        apply (Pipeline_opens e _ _ _ _ _ _ _ _ HP Hin). }
    rewrite Hpath in *.
    pose proof (Pipeline_no_unlink e _ _ _ _ _ _ HP) as Hnu.
    destruct (fault e (length t)); destruct Hcases as (Htr & Hfs & Herr & _).
    + exists code, t, (-1).
      split; [reflexivity|]. split; [exact Htr|]. split; [exact Hnu|].
      split; [discriminate|]. split; [intros _; exact Herr|].
      exists p, m0, m1. repeat split; assumption.
    + exists code, t, 0.
      split; [reflexivity|]. split; [exact Htr|]. split; [exact Hnu|].
      split; [intros _; rewrite Hfs; apply lookup_delete_eq|].
      split; [intros H; now destruct H|].
      exists p, m0, m1. repeat split; assumption.
Qed.

Lemma C1_cleanup_runs_once_witness :
  let r := run (signal_at 1 2) ["sbench"; "/tmp/t1"; "1"] ∅ in
  In (EvOpenW "/tmp/t1" true) (trace (snd r)) /\
  exists code t res,
    fst r = Ok code /\
    trace (snd r) = t ++ [EvUnlink "/tmp/t1" res] /\
    Forall (fun ev => is_unlink_event ev = false) t /\
    (res = 0 -> fs (snd r) !! "/tmp/t1" = None) /\
    (res <> 0 -> In (remove_failed_line "/tmp/t1") (stderr (snd r))) /\
    exists p m0 m1,
      parseArgs ["sbench"; "/tmp/t1"; "1"] (boot ∅) = (Ok p, m0) /\
      pipeline (signal_at 1 2) m0 = (Ok code, m1) /\
      snd r = Defer_dtor (defer_RmOutfile (signal_at 1 2)) m1.
Proof.
  intros r.
  assert (H : In (EvOpenW "/tmp/t1" true) (trace (snd r)))
    by (vm_compute; left; reflexivity).
  split; [exact H|].
  exact (C1_cleanup_runs_once (signal_at 1 2) ["sbench"; "/tmp/t1"; "1"] ∅ "/tmp/t1" H).
Defined.

(** ** The order of the phases *)

Section Order.

Variable e : Env.

(** Whatever the state, the clean-up closure adds at most one event, an
    [unlink]. *)
Lemma cleanup_trace m :
  exists tc, trace (Defer_dtor (defer_RmOutfile e) m) = trace m ++ tc /\
             Forall (fun ev => is_unlink_event ev = true) tc.
Proof.
  unfold Defer_dtor, defer_RmOutfile. simpl. io_run.
  destruct (outfileCreated (ctx m)).
  - unfold sys_unlink.
    destruct (fs m !! outfile (ctx m)); [destruct (fault e (now m))|]; simpl; mach;
      eexists; (split; [reflexivity | repeat constructor]).
  - exists []. rewrite app_nil_r. split; [reflexivity | constructor].
Qed.

Lemma ReadPhase_events path content c t code :
  ReadPhase e path content c t code ->
  exists tr,
    t = EvSystem purge_command (purge_status e) :: tr /\
    Forall (fun ev => is_read_event ev = true) tr /\
    ((purge_status e <> 0 /\ tr = [] /\ code = purge_status e) \/
     (purge_status e = 0 /\ exists fd tr', tr = EvOpenR path fd :: tr')).
Proof.
  intros H. destruct (ReadPhase_kind e _ _ _ _ _ H) as (tr & Ht & Hk).
  exists tr. split; [exact Ht|]. split; [exact Hk|].
  destruct H as [Hp|Hp _|Hp _ _ _|data t count Hp _ _ _ _].
  - left. injection Ht as <-. repeat split. exact Hp.
  - right. split; [exact Hp|]. injection Ht as _ <-. eexists _, _. reflexivity.
  - right. split; [exact Hp|]. injection Ht as _ <-. eexists _, _. reflexivity.
  - right. split; [exact Hp|]. injection Ht as _ <-. eexists _, _. reflexivity.
Qed.

Lemma guarded_pipeline_unfold m cw m1 cr m2 :
  doWrite e m = (Ok cw, m1) ->
  doRead e m1 = (Ok cr, m2) ->
  guarded_pipeline e m =
    if cw =? 0
    then (Ok cr, Defer_dtor (defer_RmOutfile e) m2)
    else (Ok cw, Defer_dtor (defer_RmOutfile e) m1).
Proof.
  intros Hw Hr. unfold guarded_pipeline, at_scope_exit, pipeline.
  unfold bind at 1. rewrite Hw.
  destruct (cw =? 0); simpl.
  - unfold bind. rewrite Hr. reflexivity.
  - reflexivity.
Qed.

End Order.

(** C3. In every run with acceptable arguments the trace is made of the
    events of the write phase, then the purge command, then the events of
    the read phase, then the clean-up.  When [doWrite] returns a code other
    than 0 there is no purge and no read event and [main] returns that code;
    when it returns 0 the purge command runs, and either its status is not 0,
    in which case the file is not opened for reading and [main] returns the
    status, or the read phase opens the file and [main] returns what
    [doRead] returns.  (With unacceptable arguments no phase runs at all.) *)
Theorem C3_phase_order (e : Env) (argv : list string) (fs0 : gmap string (list byte)) :
  let m0 := snd (parseArgs argv (boot fs0)) in
  let r := run e argv fs0 in
  let rw := doWrite e m0 in
  if valid (ctx m0) then
    exists tw tp tr tc,
      trace (snd r) = tw ++ tp ++ tr ++ tc /\
      trace (snd rw) = tw /\
      Forall (fun ev => is_write_event ev = true) tw /\
      Forall (fun ev => is_purge_event ev = true) tp /\
      Forall (fun ev => is_read_event ev = true) tr /\
      Forall (fun ev => is_unlink_event ev = true) tc /\
      match fst rw with
      | Ok 0 =>
          tp = [EvSystem purge_command (purge_status e)] /\
          if purge_status e =? 0
          then fst r = fst (doRead e (snd rw)) /\
               exists fd tr', tr = EvOpenR (outfile (ctx m0)) fd :: tr'
          else fst r = Ok (purge_status e) /\ tr = []
      | _ => fst r = fst rw /\ tp = [] /\ tr = []
      end
  else fst r = Ok 1 /\ trace (snd r) = [].
Proof.
  intros m0 r rw. subst m0 r rw.
  destruct (parseArgs_cases argv (boot fs0)) as (p & lines & Hparse & Hc & Hv).
  rewrite (run_unfold e argv fs0 _ _ Hparse), Hparse. simpl.
  destruct (valid p) eqn:Hvalid; [|split; reflexivity].
  destruct (Hv eq_refl) as (-> & _).
  set (m0 := parsed p [] (boot fs0)) in *.
  destruct (parsed_boot e p [] fs0) as (Hs & Ho & Hnow & Ht0 & Hfs0 & Hctx & _).
  fold m0 in Hs, Ho, Hnow, Ht0, Hfs0, Hctx.
  destruct (Z.lt_ge_cases (total_bytes (ctx m0)) BUFSZ) as [HN | HN].
  { rewrite (guarded_pipeline_invalid_size e m0 HN) by (rewrite Hctx; exact Hc).
    rewrite (doWrite_invalid_size e m0 HN). simpl.
    exists [], [], [], []. repeat split; constructor. }
  destruct (doWrite_shape e m0 Hs Ho HN)
    as (tw & cw & m1 & HW & Hw & Htw & Hs1 & _ & _ & Hctx1 & Hfs1).
  destruct (doRead_shape e m1 Hs1) as (tr & cr & m2 & HR & Hr & Htr & _).
  rewrite (guarded_pipeline_unfold e m0 cw m1 cr m2 Hw Hr), Hw. simpl.
  rewrite Ht0 in Htw. simpl in Htw.
  pose proof (WritePhase_kind e _ _ _ _ _ _ HW) as Hkw.
  destruct (cw =? 0) eqn:Hcw.
  - apply Z.eqb_eq in Hcw. subst cw. simpl.
    destruct (cleanup_trace e m2) as (tc & Htc & Hkc).
    assert (Hp1 : outfile (ctx m1) = outfile (ctx m0))
      by (rewrite Hctx1; destruct (fault e (now m0)); reflexivity).
    rewrite Hp1 in HR.
    destruct (ReadPhase_events e _ _ _ _ _ HR) as (tr' & -> & Hkr & Hcases).
    exists tw, [EvSystem purge_command (purge_status e)], tr', tc.
    split; [rewrite Htc, Htr, Htw, <- !app_assoc; reflexivity|].
    split; [exact Htw|]. split; [exact Hkw|].
    split; [repeat constructor|]. split; [exact Hkr|]. split; [exact Hkc|].
    split; [reflexivity|].
    rewrite Hr. simpl.
    destruct (purge_status e =? 0) eqn:Hp.
    + apply Z.eqb_eq in Hp. split; [reflexivity|].
      destruct Hcases as [(Hne & _) | (_ & Hopen)]; [congruence | exact Hopen].
    + apply Z.eqb_neq in Hp.
      destruct Hcases as [(_ & -> & ->) | (Heq & _)]; [split; reflexivity | congruence].
  - apply Z.eqb_neq in Hcw.
    destruct (cleanup_trace e m1) as (tc & Htc & Hkc).
    exists tw, [], [], tc. simpl.
    split; [rewrite Htc, Htw; reflexivity|].
    split; [exact Htw|]. split; [exact Hkw|].
    split; [constructor|]. split; [constructor|]. split; [exact Hkc|].
    simpl. destruct cw; try congruence; repeat split.
Qed.

(** ** Exit codes *)

Ltac shows :=
  repeat match goal with H : Shows _ _ _ _ _ _ |- _ => destruct H end;
  constructor; rewrite ?existsb_app; simpl;
  repeat match goal with H : existsb _ _ = _ |- _ => rewrite H end;
  simpl; rewrite ?orb_false_r, ?orb_true_r; reflexivity.

Section Codes.

Variable e : Env.

(** Every run with an acceptable command line and size is a guarded
    pipeline starting at operation 0. *)
Lemma run_cases argv fs0 :
  let m0 := snd (parseArgs argv (boot fs0)) in
  let r := run e argv fs0 in
  exists code,
    fst r = Ok code /\
    ((valid (ctx m0) = false /\ code = 1 /\ trace (snd r) = []) \/
     (valid (ctx m0) = true /\ total_bytes (ctx m0) < BUFSZ /\
      code = 2 /\ trace (snd r) = []) \/
     (valid (ctx m0) = true /\ BUFSZ <= total_bytes (ctx m0) /\
      Guarded e (outfile (ctx m0)) (random_buffer e) (turns (ctx m0)) 0
              (trace (snd r)) code)).
Proof.
  intros m0 r. subst m0 r.
  destruct (parseArgs_cases argv (boot fs0)) as (p & lines & Hparse & Hc & Hv).
  rewrite (run_unfold e argv fs0 _ _ Hparse), Hparse. simpl.
  destruct (valid p) eqn:Hvalid.
  2:{ exists 1. split; [reflexivity|]. left. repeat split. }
  destruct (Hv eq_refl) as (-> & _).
  set (m0 := parsed p [] (boot fs0)) in *.
  destruct (parsed_boot e p [] fs0) as (Hs & Ho & Hnow & Ht0 & Hfs0 & Hctx & _).
  fold m0 in Hs, Ho, Hnow, Ht0, Hfs0, Hctx.
  destruct (Z.lt_ge_cases (total_bytes p) BUFSZ) as [HN | HN].
  { rewrite (guarded_pipeline_invalid_size e m0) by (rewrite ?Hctx; assumption).
    exists 2. split; [reflexivity|]. right. left. repeat split. exact HN. }
  destruct (guarded_pipeline_shape e m0 Hs Ho ltac:(rewrite Hctx; exact HN)
              ltac:(rewrite Hctx; exact Hc))
    as (t & code & m1 & HP & _ & _ & Hrun & _ & _ & _ & _ & Hcases).
  rewrite Hrun. simpl. rewrite Hnow, Ht0, Hctx in *. simpl in Hcases.
  exists code. split; [reflexivity|]. right. right.
  split; [reflexivity|]. split; [exact HN|].
  destruct (fault e 0) eqn:Hf0.
  - destruct Hcases as (-> & _). apply G_nothing_to_remove; assumption.
  - pose proof (G_removes e _ _ _ _ t code Hf0 HP) as HG. simpl in HG.
    destruct (fault e (length t)); destruct Hcases as (-> & _); exact HG.
Qed.

Lemma WriteLoop_shows path buf n c t threw :
  WriteLoop e path buf n c t threw ->
  Shows t threw false false false false /\
  List.filter is_write_event t = t /\ bytes_read t = [].
Proof.
  induction 1 as [| | |n c t threw Hs Hf H (IH & IHf & IHr)].
  - repeat split.
  - repeat split.
  - repeat split.
  - split; [shows|].
    split; [simpl; now rewrite IHf | exact IHr].
Qed.

Lemma WritePhase_shows path buf n c t code :
  WritePhase e path buf n c t code ->
  List.filter is_write_event t = t /\ bytes_read t = [] /\
  ((Shows t true false false false false /\ code = 3) \/
   (Shows t false false false false false /\
    code = if signalled e (c + length t) then 99 else 0)).
Proof.
  destruct 1 as [Hf | tl Hf HL | tl Hf HL Hf1 | tl Hf HL Hf1 Hf2 | tl Hf HL Hf1 Hf2];
    try (destruct (WriteLoop_shows _ _ _ _ _ _ HL) as (Hsh & Hfl & Hbr));
    rewrite ?List.filter_app, ?bytes_read_app, ?Hfl, ?Hbr.
  - repeat split. left. repeat split.
  - split; [reflexivity|]. split; [reflexivity|]. left. split; [shows | reflexivity].
  - split; [reflexivity|]. split; [reflexivity|]. left. split; [shows | reflexivity].
  - split; [reflexivity|]. split; [reflexivity|]. left. split; [shows | reflexivity].
  - split; [reflexivity|]. split; [reflexivity|]. right. split; [shows|].
    rewrite !length_app. simpl.
    replace (c + S (S (length tl + 2)))%nat with (c + 4 + length tl)%nat by lia.
    reflexivity.
Qed.

(** What the read loop has counted when it ends without having seen the
    flag. *)
Lemma ReadLoop_shows content off c count t count' :
  ReadLoop e content off c count t count' ->
  Shows t false false false false true /\
  List.filter is_write_event t = [] /\
  (length (bytes_read t) <= length content - off)%nat /\
  (count = wrap_size_t count ->
   signalled e (c + length t) = false ->
   count' = wrap_size_t (count + Z.of_nat (length (bytes_read t)))).
Proof.
  induction 1 as [off c count Hf | off c count Hf Hd | off c count data Hf Hd Hne Hs
                  | off c count data t count' Hf Hd Hne Hs H (IH & IHf & IHl & IHc)].
  - repeat split; simpl; try lia. intros Hc _. now rewrite Z.add_0_r.
  - repeat split; simpl; try lia. intros Hc _. now rewrite Z.add_0_r.
  - assert (Hlen : (length data <= length content - off)%nat)
      by (rewrite Hd, length_take, length_drop; lia).
    repeat split; simpl; try (rewrite app_nil_r; exact Hlen).
    intros _ Hsig. replace (c + 1)%nat with (S c) in Hsig by lia. congruence.
  - assert (Hlen : (length data <= length content - off)%nat)
      by (rewrite Hd, length_take, length_drop; lia).
    split; [shows|].
    split; [simpl; exact IHf|].
    split.
    + unfold bytes_read in *. simpl. rewrite length_app. lia.
    + intros Hc Hsig. simpl in Hsig.
      replace (c + S (length t))%nat with (S c + length t)%nat in Hsig by lia.
      rewrite (IHc (eq_sym (wrap_wrap _)) Hsig), wrap_add_l.
      unfold bytes_read. simpl. rewrite length_app. f_equal. lia.
Qed.

Lemma ReadPhase_shows path data c t code :
  ReadPhase e path (Some data) c t code ->
  Z.of_nat (length data) < 2 ^ 64 ->
  List.filter is_write_event t = [] /\
  exists ofail nfail nok,
    Shows t false ofail nfail nok true /\
    (ofail = true -> code = 10) /\
    (nfail = true -> code = 11) /\
    (nok = true ->
     code = if signalled e (c + length t - 1) then 99
            else match bytes_read t with [] => 20 | _ => 0 end) /\
    (purge_status e <> 0 -> code = purge_status e).
Proof.
  intros H Hlen.
  destruct H as [Hp | Hp Hc | Hp Hc Hf1 Hf2 | data' reads count Hp Hd Hf1 Hf2 HL].
  - split; [reflexivity|]. exists false, false, false.
    repeat split; discriminate.
  - split; [reflexivity|]. exists true, false, false.
    repeat split; try discriminate; congruence.
  - split; [reflexivity|]. exists false, true, false.
    repeat split; try discriminate; congruence.
  - injection Hd as <-.
    destruct (ReadLoop_shows _ _ _ _ _ _ HL) as (Hsh & Hfl & Hl & Hc).
    split; [simpl; rewrite List.filter_app, Hfl; reflexivity|].
    exists false, false, true. split.
    + shows.
    + split; [discriminate|]. split; [discriminate|]. split; [|congruence]. intros _.
      rewrite !length_app. simpl.
      replace (c + S (S (S (length reads + 1))) - 1)%nat with (c + 3 + length reads)%nat by lia.
      destruct (signalled e (c + 3 + length reads)) eqn:Hs; [reflexivity|].
      rewrite (Hc eq_refl eq_refl). simpl.
      rewrite !bytes_read_app. change (bytes_read [EvClose 3]) with (@nil byte).
      rewrite app_nil_r.
      unfold wrap_size_t. rewrite Z.mod_small by lia.
      destruct (bytes_read reads); reflexivity.
Qed.

Lemma Pipeline_shows path buf n c t code :
  length buf = BUFSZ_nat ->
  Z.of_nat n * BUFSZ < 2 ^ 64 ->
  Pipeline e path buf n c t code ->
  exists wfail ofail nfail nok aft,
    Shows t wfail ofail nfail nok aft /\
    (wfail = true -> code = 3 /\ aft = false) /\
    (ofail = true -> code = 10 /\ wfail = false) /\
    (nfail = true -> code = 11 /\ wfail = false) /\
    (nok = true ->
     wfail = false /\ fault e c = false /\
     code = if signalled e (c + length t - 1) then 99
            else match bytes_read t with [] => 20 | _ => 0 end) /\
    (wfail = false ->
     signalled e (c + length (List.filter is_write_event t)) = true -> code = 99) /\
    (aft = true -> purge_status e <> 0 -> code = purge_status e).
Proof.
  intros Hbuf Hn [tw cw HW Hne | tw tr cr HW HR].
  - destruct (WritePhase_shows _ _ _ _ _ _ HW) as (Hfl & Hbr & [(Hsh & ->) | (Hsh & Hcode)]).
    + exists true, false, false, false, false. split; [exact Hsh|].
      repeat split; try discriminate.
    + exists false, false, false, false, false. split; [exact Hsh|].
      repeat split; try discriminate.
      intros _ Hs. rewrite Hfl in Hs. rewrite Hs in Hcode. exact Hcode.
  - destruct (WritePhase_zero e _ _ _ _ _ HW) as (Htw & Hf0 & _).
    destruct (WritePhase_shows _ _ _ _ _ _ HW) as (Hfl & Hbr & [(_ & H03) | (Hsh & Hcode)]);
      [discriminate|].
    assert (Hs0 : signalled e (c + length tw) = false)
      by (destruct (signalled e (c + length tw)); [discriminate | reflexivity]).
    assert (Hdata : Z.of_nat (length (bytes_written tw)) < 2 ^ 64).
    { rewrite Htw, !bytes_written_app, bytes_written_repeat. simpl.
      rewrite app_nil_r, concat_repeat_length, Hbuf. unfold BUFSZ_nat.
      change BUFSZ with 1048576 in *. lia. }
    destruct (ReadPhase_shows _ _ _ _ _ HR Hdata)
      as (Hflr & ofail & nfail & nok & Hshr & Hof & Hnf & Hnk & Hpurge).
    exists false, ofail, nfail, nok, true. split; [shows|].
    split; [discriminate|].
    split; [intros H; split; [apply Hof, H | reflexivity]|].
    split; [intros H; split; [apply Hnf, H | reflexivity]|].
    split.
    { intros H. split; [reflexivity|]. split; [exact Hf0|].
      rewrite (Hnk H), bytes_read_app, Hbr, length_app. simpl.
      replace (c + (length tw + length tr) - 1)%nat with (c + length tw + length tr - 1)%nat
        by lia.
      reflexivity. }
    split.
    { intros _ Hs. rewrite List.filter_app, Hfl, Hflr, app_nil_r in Hs. congruence. }
    intros _ Hp. apply Hpurge, Hp.
Qed.

(** The codes the pipeline can return: a listed one, or the status of a
    purge command that failed. *)
Lemma Pipeline_codes path buf n c t code :
  Pipeline e path buf n c t code ->
  In code listed_codes \/
  (code = purge_status e /\ purge_status e <> 0 /\ existsb is_purge_failure t = true).
Proof.
  intros [tw cw HW Hne | tw tr cr HW HR].
  - left. destruct (WritePhase_shows _ _ _ _ _ _ HW) as (_ & _ & [(_ & ->) | (_ & ->)]).
    + unfold listed_codes. simpl. tauto.
    + destruct (signalled e (c + length tw)); unfold listed_codes; simpl; tauto.
  - destruct HR as [Hp | Hp Hc | Hp Hc Hf1 Hf2 | data reads count Hp Hd Hf1 Hf2 HL].
    + right. split; [reflexivity|]. split; [exact Hp|].
      rewrite existsb_app. simpl. apply Z.eqb_neq in Hp. rewrite Hp. simpl.
      apply orb_true_r.
    + left. unfold listed_codes. simpl. tauto.
    + left. unfold listed_codes. simpl. tauto.
    + left. destruct (signalled e (c + length tw + 3 + length reads));
        [|destruct (count =? 0)]; unfold listed_codes; simpl; tauto.
Qed.

Lemma Guarded_codes path buf n c t code :
  Guarded e path buf n c t code ->
  In code listed_codes \/
  (code = purge_status e /\ purge_status e <> 0 /\ existsb is_purge_failure t = true).
Proof.
  intros [t' code' Hf0 HP | t' code' Hf0 HP];
    destruct (Pipeline_codes _ _ _ _ _ _ HP) as [H | (H1 & H2 & H3)]; auto.
  right. split; [exact H1|]. split; [exact H2|].
  rewrite existsb_app, H3. reflexivity.
Qed.

End Codes.

(** The eight codes 0, 1, 2, 3, 10, 11, 20, 99 are pairwise different, and
    [main] returns them as follows, [T] being the trace of the run.
    - Unacceptable arguments: 1, before any operation ([T] is empty).
    - A size below one buffer: 2, before any operation.
    - Some operation on the output stream failed (open, write, flush or
      close): 3, and [T] holds no event of the purge or of the read phase.
    - The open for reading failed: 10.  The [fcntl] failed: 11.  In both
      cases no operation on the output stream had failed.
    - The [fcntl] succeeded: no operation on the output stream had failed,
      and the code is 99 when the flag is set as the read loop ends (the two
      operations after it are the close and the unlink), else 20 when no
      byte was read, else 0.
    - No operation on the output stream failed and the flag is set as the
      write phase ends: 99.
    - The purge command, when its status is not 0, gives that status as the
      code of the run, whatever its value.
    - There is no other code: [main] returns one of the eight, or the status
      of the purge command that failed. *)
Lemma exit_codes_listed (e : Env) (argv : list string) (fs0 : gmap string (list byte)) :
  let m0 := snd (parseArgs argv (boot fs0)) in
  let r := run e argv fs0 in
  let T := trace (snd r) in
  NoDup listed_codes /\
  exists code,
    fst r = Ok code /\
    (valid (ctx m0) = false -> code = 1 /\ T = []) /\
    (valid (ctx m0) = true -> total_bytes (ctx m0) < BUFSZ -> code = 2 /\ T = []) /\
    (existsb is_write_failure T = true -> code = 3 /\ existsb after_write T = false) /\
    (existsb is_open_failure T = true -> code = 10 /\ existsb is_write_failure T = false) /\
    (existsb is_nocache_failure T = true ->
     code = 11 /\ existsb is_write_failure T = false) /\
    (existsb is_nocache_ok T = true ->
     existsb is_write_failure T = false /\
     code = if signalled e (length T - 2) then 99
            else match bytes_read T with [] => 20 | _ => 0 end) /\
    (valid (ctx m0) = true -> BUFSZ <= total_bytes (ctx m0) ->
     existsb is_write_failure T = false ->
     signalled e (length (List.filter is_write_event T)) = true -> code = 99) /\
    (existsb after_write T = true -> purge_status e <> 0 -> code = purge_status e) /\
    (In code listed_codes \/
     (code = purge_status e /\ purge_status e <> 0 /\ existsb is_purge_failure T = true)).
Proof.
  intros m0 r T.
  split.
  { unfold listed_codes.
    repeat (apply NoDup_cons_2;
            [rewrite ?elem_of_cons, elem_of_nil; intuition discriminate|]).
    apply NoDup_nil_2. }
  destruct (run_cases e argv fs0) as (code & Hr & Hcases).
  fold m0 r T in Hr, Hcases.
  exists code. split; [exact Hr|].
  destruct Hcases as [(Hv & -> & HT) | [(Hv & HN & -> & HT) | (Hv & HN & HG)]].
  - rewrite HT, Hv. simpl.
    repeat split; try discriminate; left; unfold listed_codes; simpl; tauto.
  - rewrite HT, Hv. simpl.
    repeat split; try discriminate; try (intros; lia);
      left; unfold listed_codes; simpl; tauto.
  - rewrite Hv. pose proof (Guarded_codes e _ _ _ _ _ _ HG) as Hset.
    assert (Hbuf : length (random_buffer e) = BUFSZ_nat) by apply random_buffer_length.
    assert (Hn : Z.of_nat (turns (ctx m0)) * BUFSZ < 2 ^ 64).
    { pose proof (turns_bound (ctx m0)). pose proof (total_bytes_range (ctx m0)). lia. }
    remember (trace (snd r)) as T' eqn:HT' in *. subst T.
    destruct HG as [t code Hf0 HP | t code Hf0 HP];
      destruct (Pipeline_shows e _ _ _ _ _ _ Hbuf Hn HP)
        as (wfail & ofail & nfail & nok & aft & Hsh & Hwf & Hof & Hnf & Hnk & Hint & Hpurge).
    + destruct Hsh as [H1 H2 H3 H4 H5]. rewrite H1, H2, H3, H4, H5.
      split; [discriminate|]. split; [intros _ H; lia|].
      split; [exact Hwf|]. split; [exact Hof|]. split; [exact Hnf|].
      split; [intros H; destruct (Hnk H) as (_ & Hf & _); congruence|].
      split; [intros _ _; exact Hint|]. split; [exact Hpurge | exact Hset].
    + assert (Hsh' : Shows (t ++ [EvUnlink (outfile (ctx m0))
                                    (if fault e (0 + length t) then -1 else 0)])
                       wfail ofail nfail nok aft) by shows.
      destruct Hsh' as [H1 H2 H3 H4 H5]. rewrite H1, H2, H3, H4, H5.
      rewrite List.filter_app, bytes_read_app, length_app. simpl.
      rewrite !app_nil_r.
      replace (length t + 1 - 2)%nat with (0 + length t - 1)%nat by lia.
      split; [discriminate|]. split; [intros _ H; lia|].
      split; [exact Hwf|]. split; [exact Hof|]. split; [exact Hnf|].
      split; [intros H; destruct (Hnk H) as (Hw & _ & Hc); split; assumption|].
      split; [intros _ _; exact Hint|]. split; [exact Hpurge | exact Hset].
Qed.

(** C5. The failure of the purge command has no exit code of its own:
    [main] returns the status of [std::system] as it is.  On the command
    line [sbench /tmp/t1 1], when nothing else goes wrong:
    - a purge command that exits with code 1 makes [std::system] return 256;
      the run reports the failure on the diagnostic stream and [main] returns
      256, of which the parent process sees the exit status 0, the same as
      after the run in which nothing fails;
    - a purge command that ends with status 3 makes [main] return 3, the
      code of a write error, although no operation on the output stream
      failed; the run in which the open for writing fails returns 3 too. *)
Theorem C5_purge_failure_code :
  let argv := ["sbench"; "/tmp/t1"; "1"] in
  (let r := run (purge_returns 256) argv ∅ in
   fst r = Ok 256 /\
   existsb is_purge_failure (trace (snd r)) = true /\
   stderr (snd r) = [purge_failed_line 256; removed_line "/tmp/t1"] /\
   exit_status 256 = 0) /\
  (fst (run quiet argv ∅) = Ok 0 /\ exit_status 0 = 0) /\
  (let r := run (purge_returns 3) argv ∅ in
   fst r = Ok 3 /\
   existsb is_purge_failure (trace (snd r)) = true /\
   existsb is_write_failure (trace (snd r)) = false) /\
  (let r := run (failing_at 0) argv ∅ in
   fst r = Ok 3 /\ existsb is_write_failure (trace (snd r)) = true).
Proof.
  intros argv. split; [|split; [|split]].
  - intros r.
    assert (H : let r' := r in
                (fst r', (existsb is_purge_failure (trace (snd r')), stderr (snd r')))
                = (Ok 256, (true, [purge_failed_line 256; removed_line "/tmp/t1"])))
      by (vm_compute; reflexivity).
    cbv zeta in H.
    split; [exact (f_equal fst H)|].
    split; [exact (f_equal fst (f_equal snd H))|].
    split; [exact (f_equal snd (f_equal snd H)) | reflexivity].
  - split; [vm_compute; reflexivity | reflexivity].
  - intros r.
    assert (H : let r' := r in
                (fst r', (existsb is_purge_failure (trace (snd r')),
                          existsb is_write_failure (trace (snd r'))))
                = (Ok 3, (true, false)))
      by (vm_compute; reflexivity).
    cbv zeta in H.
    split; [exact (f_equal fst H)|].
    split; [exact (f_equal fst (f_equal snd H)) | exact (f_equal snd (f_equal snd H))].
  - intros r.
    assert (H : let r' := r in
                (fst r', existsb is_write_failure (trace (snd r'))) = (Ok 3, true))
      by (vm_compute; reflexivity).
    cbv zeta in H.
    split; [exact (f_equal fst H) | exact (f_equal snd H)].
Qed.

(** ** Interruption of the write phase *)

Section Interrupted.

Variable e : Env.

(** How many writes the loop has made when it ends. *)
Lemma WriteLoop_count path buf n c tl threw :
  WriteLoop e path buf n c tl threw ->
  (count_writes tl <= n)%nat /\
  (forall j, (j < count_writes tl)%nat ->
             signalled e (c + j) = false /\ fault e (c + j) = false) /\
  (if threw
   then length tl = S (count_writes tl) /\ fault e (c + count_writes tl) = true
   else length tl = count_writes tl /\
        ((count_writes tl < n)%nat -> signalled e (c + count_writes tl) = true)).
Proof.
  induction 1 as [c | n c Hs | n c Hs Hf | n c t threw Hs Hf H (IHn & IHj & IHt)].
  - unfold count_writes; simpl. split; [lia|]. split; [intros j Hj; lia|].
    split; [reflexivity | lia].
  - unfold count_writes; simpl. split; [lia|]. split; [intros j Hj; lia|].
    split; [reflexivity|]. intros _. now rewrite Nat.add_0_r.
  - unfold count_writes; simpl. split; [lia|]. split; [intros j Hj; lia|].
    split; [reflexivity|]. now rewrite Nat.add_0_r.
  - assert (Hc : count_writes (EvWrite path buf true :: t) = S (count_writes t))
      by reflexivity.
    rewrite Hc. split; [lia|]. split.
    + intros j Hj. destruct j as [|j]; [rewrite Nat.add_0_r; split; assumption|].
      replace (c + S j)%nat with (S c + j)%nat by lia. apply IHj. lia.
    + replace (c + S (count_writes t))%nat with (S c + count_writes t)%nat by lia.
      destruct threw.
      * destruct IHt as (Hl & Hft). split; [simpl; lia | exact Hft].
      * destruct IHt as (Hl & Hst). split; [simpl; lia|]. intros Hlt. apply Hst. lia.
Qed.

Lemma count_writes_phase path tl tail :
  count_writes tail = O ->
  count_writes ([EvOpenW path true; EvRandom] ++ tl ++ tail) = count_writes tl.
Proof.
  intros H. rewrite !count_writes_app, H.
  change (count_writes [EvOpenW path true; EvRandom]) with O. lia.
Qed.

Lemma WritePhase_count path buf n c tw code :
  WritePhase e path buf n c tw code ->
  fault e c = false ->
  (count_writes tw <= n)%nat /\
  (forall j, (j < count_writes tw)%nat ->
             signalled e (c + 2 + j) = false /\ fault e (c + 2 + j) = false) /\
  ((count_writes tw < n)%nat ->
   signalled e (c + 2 + count_writes tw) = true \/ fault e (c + 2 + count_writes tw) = true) /\
  (existsb is_write_failure tw = false -> length tw = (4 + count_writes tw)%nat).
Proof.
  intros H Hf0.
  destruct H as [Hf | tl Hf HL | tl Hf HL Hf1 | tl Hf HL Hf1 Hf2 | tl Hf HL Hf1 Hf2];
    [congruence | | | |];
    destruct (WriteLoop_count _ _ _ _ _ _ HL) as (Hn & Hj & Ht);
    destruct (WriteLoop_shows e _ _ _ _ _ _ HL) as ([Hwf _ _ _ _] & _);
    rewrite count_writes_phase by reflexivity;
    rewrite ?existsb_app, ?Hwf, ?length_app; simpl.
  - destruct Ht as (Hl & Hft).
    split; [exact Hn|]. split; [exact Hj|]. split; [intros _; right; exact Hft | discriminate].
  - destruct Ht as (Hl & Hst).
    split; [exact Hn|]. split; [exact Hj|]. split; [intros Hlt; left; auto | discriminate].
  - destruct Ht as (Hl & Hst).
    split; [exact Hn|]. split; [exact Hj|]. split; [intros Hlt; left; auto | discriminate].
  - destruct Ht as (Hl & Hst).
    split; [exact Hn|]. split; [exact Hj|]. split; [intros Hlt; left; auto|].
    intros _. lia.
Qed.

Lemma WritePhase_no_fault path buf n c tw code :
  (forall j, fault e j = false) ->
  WritePhase e path buf n c tw code -> existsb is_write_failure tw = false.
Proof.
  intros Hnf H.
  destruct H as [Hf | tl Hf HL | tl Hf HL Hf1 | tl Hf HL Hf1 Hf2 | tl Hf HL Hf1 Hf2];
    try (rewrite Hnf in *; discriminate).
  - pose proof (WriteLoop_no_fault e _ _ _ _ _ _ Hnf HL). discriminate.
  - destruct (WriteLoop_shows e _ _ _ _ _ _ HL) as ([Hwf _ _ _ _] & _).
    rewrite !existsb_app, Hwf. reflexivity.
Qed.

End Interrupted.

(** C4. Let the open, the filling of the buffer and the first [N] of the
    [turns] buffer writes succeed ([N < turns]; they are the operations 0 to
    [N + 1]), and let the first signal arrive either as the [N]-th write
    returns (operation [N + 1]) or while the next write is in progress
    (operation [N + 2]).  Then
    - the loop stops having made [N] or [N + 1] writes, at most one more
      than were done when the signal arrived;
    - the trace holds no purge and no read event;
    - [main] returns what [doWrite] returns, which is 99, unless the write in
      progress, the flush or the close failed, in which case it is 3;
    - the run ends with the [unlink] of the partial file, after which the
      file is not there, unless the [unlink] itself failed, which is then
      reported;
    - when no operation fails at all the code is 99, the loop has made
      [t - 1] writes for a signal during operation [t], and the file is
      gone. *)
Theorem C4_interrupted_write
  (e : Env) (argv : list string) (fs0 : gmap string (list byte))
  (t N : nat) (sig : Z) :
  let m0 := snd (parseArgs argv (boot fs0)) in
  let p := ctx m0 in
  let r := run e argv fs0 in
  let T := trace (snd r) in
  valid p = true ->
  BUFSZ <= total_bytes p ->
  (N < turns p)%nat ->
  (forall j, (j <= N + 1)%nat -> fault e j = false) ->
  sig_at e t = Some sig ->
  (forall t', (t' < t)%nat -> sig_at e t' = None) ->
  (t = N + 1 \/ t = N + 2)%nat ->
  (N <= count_writes T <= N + 1)%nat /\
  Forall (fun ev => is_purge_event ev = false /\ is_read_event ev = false) T /\
  fst (doWrite e m0) = fst r /\
  fst r = Ok (if existsb is_write_failure T then 3 else 99) /\
  (exists tw res,
     T = tw ++ [EvUnlink (outfile p) res] /\
     Forall (fun ev => is_write_event ev = true) tw /\
     res = (if fault e (length tw) then -1 else 0) /\
     (res = 0 -> fs (snd r) !! outfile p = None) /\
     (res <> 0 -> In (remove_failed_line (outfile p)) (stderr (snd r)))) /\
  ((forall j, fault e j = false) ->
   fst r = Ok 99 /\ count_writes T = (t - 1)%nat /\ fs (snd r) !! outfile p = None).
Proof.
  intros m0 p r T Hvalid HN HNt Hok Hsig Hfirst Ht. subst T r p m0.
  destruct (parseArgs_cases argv (boot fs0)) as (p & lines & Hparse & Hc & Hv).
  rewrite (run_unfold e argv fs0 _ _ Hparse). rewrite Hparse in *. simpl in Hvalid, HN, HNt |- *.
  rewrite Hvalid. destruct (Hv Hvalid) as (-> & _).
  set (m0 := parsed p [] (boot fs0)) in *.
  destruct (parsed_boot e p [] fs0) as (Hs & Ho & Hnow & Ht0 & Hfs0 & Hctx & _).
  fold m0 in Hs, Ho, Hnow, Ht0, Hfs0, Hctx.
  pose proof (signalled_first e t sig Hsig Hfirst) as Hflag.
  assert (HN0 : BUFSZ <= total_bytes (ctx m0)) by (rewrite Hctx; exact HN).
  assert (Hf0 : fault e 0 = false) by (apply Hok; lia).
  (* the write phase on its own *)
  destruct (doWrite_shape e m0 Hs Ho HN0) as (tw & cw & m1 & HW & Hw & Htw & Hs1 & _).
  rewrite Hnow, Hctx in HW. rewrite Ht0 in Htw. simpl in Htw.
  destruct (WritePhase_count e _ _ _ _ _ _ HW Hf0) as (Hkn & Hkj & Hkstop & Hklen).
  change (0 + 2)%nat with 2%nat in Hkj, Hkstop.
  set (k := count_writes tw) in *.
  assert (Hlo : (N <= k)%nat).
  { destruct (Nat.le_gt_cases N k) as [H | H]; [exact H | exfalso].
    destruct (Hkstop ltac:(lia)) as [H1 | H1].
    - rewrite Hflag in H1. apply Nat.ltb_lt in H1. lia.
    - rewrite Hok in H1 by lia. discriminate. }
  assert (Hhi : (k <= t - 1)%nat).
  { destruct k as [|k']; [lia|].
    destruct (Hkj k' ltac:(lia)) as (H1 & _).
    rewrite Hflag in H1. apply Nat.ltb_ge in H1. lia. }
  assert (Hcode : cw = if existsb is_write_failure tw then 3 else 99).
  { destruct (WritePhase_shows e _ _ _ _ _ _ HW)
      as (_ & _ & [([Hwf _ _ _ _] & ->) | ([Hwf _ _ _ _] & ->)]); rewrite Hwf; [reflexivity|].
    rewrite (Hklen Hwf), Hflag. simpl.
    assert (Hlt : (t <? S (S (S (S k))))%nat = true) by (apply Nat.ltb_lt; lia).
    now rewrite Hlt. }
  assert (Hcw : (cw =? 0) = false).
  { rewrite Hcode. destruct (existsb is_write_failure tw); reflexivity. }
  (* the rest of the run *)
  destruct (doRead_shape e m1 Hs1) as (tr & cr & m2 & _ & Hr & _).
  rewrite (guarded_pipeline_unfold e m0 cw m1 cr m2 Hw Hr), Hw, Hcw. simpl.
  destruct (guarded_pipeline_shape e m0 Hs Ho HN0 ltac:(rewrite Hctx; exact Hc))
    as (tp & code & m1' & _ & Hpipe & Htp & Hrun & _ & _ & _ & _ & Hcases).
  rewrite (guarded_pipeline_unfold e m0 cw m1 cr m2 Hw Hr), Hcw in Hrun. simpl in Hrun.
  injection Hrun as <- Hm.
  assert (Hm1 : m1' = m1).
  { unfold pipeline, bind in Hpipe. rewrite Hw, Hcw in Hpipe. simpl in Hpipe.
    unfold ret in Hpipe. now injection Hpipe as <-. }
  subst m1'. rewrite Htw, Ht0 in Htp. simpl in Htp. subst tp.
  rewrite Hnow, Hf0, Ht0, Hfs0, Hctx in Hcases. simpl in Hcases.
  pose proof (WritePhase_kind e _ _ _ _ _ _ HW) as Hkw.
  assert (HT : trace (Defer_dtor (defer_RmOutfile e) m1) =
               tw ++ [EvUnlink (outfile p) (if fault e (length tw) then -1 else 0)]).
  { destruct (fault e (length tw)); destruct Hcases as (-> & _); reflexivity. }
  rewrite HT.
  assert (Hcount : count_writes (tw ++ [EvUnlink (outfile p)
                                          (if fault e (length tw) then -1 else 0)]) = k).
  { rewrite count_writes_app. change (count_writes [EvUnlink _ _]) with O. fold k. lia. }
  assert (Hwf : existsb is_write_failure
                  (tw ++ [EvUnlink (outfile p) (if fault e (length tw) then -1 else 0)])
                = existsb is_write_failure tw).
  { rewrite existsb_app. simpl. now rewrite orb_false_r. }
  rewrite Hcount, Hwf.
  split; [lia|].
  split.
  { apply Forall_app. split.
    - eapply Forall_impl; [exact Hkw|].
      intros ev Hev. destruct ev; try discriminate; split; reflexivity.
    - repeat constructor. }
  split; [reflexivity|].
  split; [rewrite Hcode; reflexivity|].
  split.
  { exists tw, (if fault e (length tw) then -1 else 0).
    split; [reflexivity|]. split; [exact Hkw|]. split; [reflexivity|].
    destruct (fault e (length tw)); destruct Hcases as (_ & Hfs & Herr & _).
    - split; [discriminate | intros _; exact Herr].
    - split; [intros _; rewrite Hfs; apply lookup_delete_eq | intros H; now destruct H]. }
  intros Hnf.
  rewrite (WritePhase_no_fault e _ _ _ _ _ _ Hnf HW) in Hcode. subst cw.
  split; [reflexivity|]. split.
  - destruct (Nat.le_gt_cases (turns p) k) as [H | H]; [lia|].
    destruct (Hkstop H) as [H1 | H1]; [|rewrite Hnf in H1; discriminate].
    rewrite Hflag in H1. apply Nat.ltb_lt in H1. lia.
  - rewrite Hnf in Hcases. destruct Hcases as (_ & Hfs & _). rewrite Hfs.
    apply lookup_delete_eq.
Qed.

Lemma C4_interrupted_write_witness :
  let e := signal_at 2 2 in
  let argv := ["sbench"; "/tmp/t1"; "2"] in
  let m0 := snd (parseArgs argv (boot ∅)) in
  let p := ctx m0 in
  let r := run e argv ∅ in
  let T := trace (snd r) in
  (valid p = true /\ BUFSZ <= total_bytes p /\ (0 < turns p)%nat /\
   (forall j, (j <= 0 + 1)%nat -> fault e j = false) /\
   sig_at e 2 = Some 2 /\ (forall t', (t' < 2)%nat -> sig_at e t' = None)) /\
  (0 <= count_writes T <= 0 + 1)%nat /\
  Forall (fun ev => is_purge_event ev = false /\ is_read_event ev = false) T /\
  fst (doWrite e m0) = fst r /\
  fst r = Ok (if existsb is_write_failure T then 3 else 99) /\
  (exists tw res,
     T = tw ++ [EvUnlink (outfile p) res] /\
     Forall (fun ev => is_write_event ev = true) tw /\
     res = (if fault e (length tw) then -1 else 0) /\
     (res = 0 -> fs (snd r) !! outfile p = None) /\
     (res <> 0 -> In (remove_failed_line (outfile p)) (stderr (snd r)))) /\
  ((forall j, fault e j = false) ->
   fst r = Ok 99 /\ count_writes T = (2 - 1)%nat /\ fs (snd r) !! outfile p = None).
Proof.
  intros e argv m0 p r T.
  assert (H1 : valid p = true) by reflexivity.
  assert (H2 : BUFSZ <= total_bytes p) by (vm_compute; discriminate).
  assert (H3 : (0 < turns p)%nat) by (vm_compute; lia).
  assert (H4 : forall j, (j <= 0 + 1)%nat -> fault e j = false) by reflexivity.
  assert (H5 : sig_at e 2 = Some 2) by reflexivity.
  assert (H6 : forall t', (t' < 2)%nat -> sig_at e t' = None).
  { intros t' Ht'. simpl. destruct (Nat.eqb_spec t' 2); [lia | reflexivity]. }
  split; [repeat split; assumption|].
  exact (C4_interrupted_write e argv ∅ 2 0 2 H1 H2 H3 H4 H5 H6 (or_intror eq_refl)).
Defined.

(** A signal during the first of two writes.  When the flush that follows
    fails, [doWrite] and [main] return 3, not 99.  When nothing fails but the
    [unlink], [main] returns 99 and the partial file is still there. *)
Lemma C4_failure_after_signal :
  let argv := ["sbench"; "/tmp/t1"; "2"] in
  let m0 := snd (parseArgs argv (boot ∅)) in
  (let e := signal_and_fault 2 2 3 in
   let r := run e argv ∅ in
   sig_at e 2 = Some 2 /\ (1 < turns (ctx m0))%nat /\
   count_writes (trace (snd r)) = 1%nat /\
   fst (doWrite e m0) = Ok 3 /\ fst r = Ok 3) /\
  (let e := signal_and_fault 2 2 5 in
   let r := run e argv ∅ in
   sig_at e 2 = Some 2 /\
   fst r = Ok 99 /\ is_some (fs (snd r) !! "/tmp/t1") = true).
Proof.
  intros argv m0. split.
  - intros e r.
    assert (H : let r' := r in
                (count_writes (trace (snd r')), fst r') = (1%nat, Ok 3))
      by (vm_compute; reflexivity).
    cbv zeta in H.
    split; [reflexivity|]. split; [vm_compute; lia|].
    split; [exact (f_equal fst H)|].
    split; [vm_compute; reflexivity | exact (f_equal snd H)].
  - intros e r.
    assert (H : let r' := r in
                (fst r', is_some (fs (snd r') !! "/tmp/t1")) = (Ok 99, true))
      by (vm_compute; reflexivity).
    cbv zeta in H.
    split; [reflexivity|]. split; [exact (f_equal fst H) | exact (f_equal snd H)].
Qed.

(** ** Reading back what was written *)

Section ReadBack.

Variable e : Env.

(** A trace of the pipeline that shows a successful [fcntl]: the write phase
    returned 0, the purge command succeeded, the file was opened and the
    read loop ran. *)
Lemma Pipeline_nocache_ok path buf n c t code :
  Pipeline e path buf n c t code ->
  existsb is_nocache_ok t = true ->
  purge_status e = 0 /\
  exists tw reads count,
    t = tw ++ [EvSystem purge_command 0; EvOpenR path 3; EvFcntl 3 0] ++ reads ++ [EvClose 3] /\
    WritePhase e path buf n c tw 0 /\
    ReadLoop e (bytes_written tw) 0 (c + length tw + 3) 0 reads count /\
    code = if signalled e (c + length tw + 3 + length reads) then 99
           else if count =? 0 then 20 else 0.
Proof.
  intros [tw cw HW Hne | tw tr cr HW HR] Hok.
  - destruct (WritePhase_shows e _ _ _ _ _ _ HW)
      as (_ & _ & [([_ _ _ Hnk _] & _) | ([_ _ _ Hnk _] & _)]); congruence.
  - destruct (WritePhase_shows e _ _ _ _ _ _ HW)
      as (_ & _ & [([_ _ _ Hnk _] & _) | ([_ _ _ Hnk _] & _)]);
      rewrite existsb_app, Hnk in Hok; simpl in Hok;
      (destruct HR as [Hp | Hp Hc | Hp Hc Hf1 Hf2 | data reads count Hp Hd Hf1 Hf2 HL];
       [discriminate Hok | discriminate Hok | discriminate Hok |]);
      injection Hd as <-; (split; [exact Hp|]);
      exists tw, reads, count; repeat split; assumption.
Qed.

End ReadBack.

(** C7. In every run whose trace shows a successful [fcntl] (the write
    phase has then returned 0 and the purge command has succeeded), in which
    no [read] fails and during which no signal arrives, the bytes read back
    are the bytes written, one buffer for every turn of the write loop, and
    [main] returns 0; when the size is below 2^44 megabytes their number is
    [mb * MB / BUFSZ * BUFSZ]. *)
Theorem C7_round_trip (e : Env) (argv : list string) (fs0 : gmap string (list byte)) :
  let m0 := snd (parseArgs argv (boot fs0)) in
  let p := ctx m0 in
  let r := run e argv fs0 in
  let T := trace (snd r) in
  existsb is_nocache_ok T = true ->
  existsb is_read_failure T = false ->
  (forall t, sig_at e t = None) ->
  fst (doWrite e m0) = Ok 0 /\ purge_status e = 0 /\
  bytes_read T = bytes_written T /\
  count_writes T = turns p /\
  Z.of_nat (length (bytes_read T)) = Z.of_nat (turns p) * BUFSZ /\
  (mb p < 2 ^ 44 -> Z.of_nat (length (bytes_read T)) = mb p * MB / BUFSZ * BUFSZ) /\
  fst r = Ok 0.
Proof.
  intros m0 p r T Hok Hrf Hns.
  pose proof Hok as Hok0.
  destruct (run_cases e argv fs0) as (code & Hr & Hcases).
  fold m0 r in Hr, Hcases. fold T p in Hcases.
  destruct Hcases as [(_ & _ & HT) | [(_ & _ & _ & HT) | (Hv & HN & HG)]];
    [rewrite HT in Hok; discriminate | rewrite HT in Hok; discriminate |].
  assert (Hpos : 0 < mb p <= LONG_MAX).
  { subst p m0. destruct (parseArgs_cases argv (boot fs0)) as (p' & lines & Hparse & _ & Hv').
    rewrite Hparse in *. simpl in *. apply Hv'. exact Hv. }
  assert (HP : exists t tc, T = t ++ tc /\ Forall (fun ev => is_unlink_event ev = true) tc /\
                 Pipeline e (outfile p) (random_buffer e) (turns p) 0 t code).
  { destruct HG as [t code Hf0 HP | t code Hf0 HP].
    - exists t, []. rewrite app_nil_r. repeat split; [constructor | exact HP].
    - eexists t, _. repeat split; [repeat constructor | exact HP]. }
  destruct HP as (t & tc & HT & Hkc & HP).
  assert (Htc : existsb is_nocache_ok tc = false /\ existsb is_read_failure tc = false /\
                bytes_read tc = [] /\ bytes_written tc = [] /\ count_writes tc = O).
  { clear - Hkc. induction Hkc as [|ev tc Hev _ IH]; [repeat split|].
    destruct ev; try discriminate. exact IH. }
  destruct Htc as (Hc1 & Hc2 & Hc3 & Hc4 & Hc5).
  rewrite HT, existsb_app, Hc1, orb_false_r in Hok.
  rewrite HT, existsb_app, Hc2, orb_false_r in Hrf.
  destruct (Pipeline_nocache_ok e _ _ _ _ _ _ HP Hok)
    as (Hp & tw & reads & count & Ht & HW & HL & Hcode).
  destruct (WritePhase_zero e _ _ _ _ _ HW) as (Htw & Hf0 & _).
  pose proof (write_trace_measure (outfile p) (random_buffer e) (turns p)) as Hm.
  cbv zeta in Hm. rewrite <- Htw in Hm. destruct Hm as (Hm1 & Hm2 & Hm3).
  assert (Hrf' : existsb is_read_failure reads = false).
  { rewrite Ht, !existsb_app in Hrf. simpl in Hrf.
    apply orb_false_iff in Hrf. destruct Hrf as (_ & Hrf).
    apply orb_false_iff in Hrf. apply Hrf. }
  destruct (ReadLoop_reads_all e _ _ _ _ _ _ HL Hrf' eq_refl (signalled_none e Hns _))
    as (Hb & Hc & _).
  rewrite drop_0 in Hb, Hc. simpl in Hc.
  pose proof (ReadLoop_kind e _ _ _ _ _ _ HL) as Hkr.
  destruct (read_events_write_nothing reads Hkr) as (Hw0 & Hcw0).
  pose proof (turns_pos p HN) as Hn1.
  pose proof (turns_bound p) as Hn2.
  pose proof (total_bytes_range p) as Hn3.
  assert (Hlen : Z.of_nat (length (bytes_written tw)) = Z.of_nat (turns p) * BUFSZ).
  { rewrite Hm2, concat_repeat_length, random_buffer_length. unfold BUFSZ_nat.
    change BUFSZ with 1048576. lia. }
  assert (Hcount : (count =? 0) = false).
  { apply Z.eqb_neq. rewrite Hc, Hlen. unfold wrap_size_t.
    rewrite Z.mod_small by lia. change BUFSZ with 1048576 in *. lia. }
  rewrite (signalled_none e Hns), Hcount in Hcode. subst code.
  assert (HbT : bytes_read T = bytes_written tw).
  { rewrite HT, Ht, !bytes_read_app, Hm3, Hb, Hc3. simpl. now rewrite !app_nil_r. }
  assert (HwT : bytes_written T = bytes_written tw).
  { rewrite HT, Ht, !bytes_written_app, Hw0, Hc4. simpl. now rewrite !app_nil_r. }
  assert (HcT : count_writes T = turns p).
  { rewrite HT, Ht, !count_writes_app, Hm1, Hcw0, Hc5.
    change (count_writes [EvSystem purge_command 0; EvOpenR (outfile p) 3; EvFcntl 3 0]) with O.
    change (count_writes [EvClose 3]) with O. lia. }
  split.
  { clear - Hok0 Hv HN. subst T r p m0.
    destruct (parseArgs_cases argv (boot fs0)) as (p' & lines & Hparse & Hcr & Hv').
    rewrite (run_unfold e argv fs0 _ _ Hparse) in Hok0.
    rewrite Hparse in *. simpl in Hv, HN, Hok0 |- *. rewrite Hv in Hok0.
    destruct (Hv' Hv) as (-> & _).
    destruct (parsed_boot e p' [] fs0) as (Hs & Ho & _ & Ht0 & _).
    destruct (doWrite_shape e _ Hs Ho HN) as (tw' & cw & m1 & HW' & Hw & Htw' & Hs1 & _).
    destruct (doRead_shape e m1 Hs1) as (tr & cr & m2 & _ & Hrd & _).
    rewrite (guarded_pipeline_unfold e _ cw m1 cr m2 Hw Hrd) in Hok0.
    rewrite Hw. simpl. f_equal.
    destruct (cw =? 0) eqn:Hcw; [apply Z.eqb_eq; exact Hcw | exfalso].
    simpl in Hok0.
    destruct (cleanup_trace e m1) as (tc' & Htc' & Hkc').
    rewrite Htc', Htw', Ht0 in Hok0. simpl in Hok0.
    rewrite existsb_app in Hok0.
    assert (H1 : existsb is_nocache_ok tw' = false).
    { destruct (WritePhase_shows e _ _ _ _ _ _ HW')
        as (_ & _ & [([_ _ _ Hnk _] & _) | ([_ _ _ Hnk _] & _)]); exact Hnk. }
    assert (H2 : existsb is_nocache_ok tc' = false).
    { clear - Hkc'. induction Hkc' as [|ev tc Hev _ IH]; [reflexivity|].
      destruct ev; try discriminate. exact IH. }
    rewrite H1, H2 in Hok0. discriminate. }
  split; [exact Hp|].
  split; [rewrite HbT, HwT; reflexivity|].
  split; [exact HcT|].
  split; [rewrite HbT; exact Hlen|].
  split; [|exact Hr].
  intros Hmb. rewrite HbT, Hlen.
  destruct (turns_in_range p ltac:(lia)) as (_ & -> & _). reflexivity.
Qed.

Lemma C7_round_trip_witness :
  let e := quiet in
  let argv := ["sbench"; "/tmp/t1"; "1"] in
  let m0 := snd (parseArgs argv (boot ∅)) in
  let p := ctx m0 in
  let r := run e argv ∅ in
  let T := trace (snd r) in
  (existsb is_nocache_ok T = true /\ existsb is_read_failure T = false /\
   (forall t, sig_at e t = None)) /\
  fst (doWrite e m0) = Ok 0 /\ purge_status e = 0 /\
  bytes_read T = bytes_written T /\
  count_writes T = turns p /\
  Z.of_nat (length (bytes_read T)) = Z.of_nat (turns p) * BUFSZ /\
  (mb p < 2 ^ 44 -> Z.of_nat (length (bytes_read T)) = mb p * MB / BUFSZ * BUFSZ) /\
  fst r = Ok 0.
Proof.
  intros e argv m0 p r T.
  assert (H : let T' := T in
              (existsb is_nocache_ok T', existsb is_read_failure T') = (true, false))
    by (vm_compute; reflexivity).
  cbv zeta in H.
  assert (H3 : forall t, sig_at e t = None) by reflexivity.
  split; [split; [exact (f_equal fst H) | split; [exact (f_equal snd H) | exact H3]]|].
  exact (C7_round_trip e argv ∅ (f_equal fst H) (f_equal snd H) H3).
Defined.

(** The second [read] fails (operation 10 of the run): the loop ends as at
    the end of the file, and [doRead] reports success with the first buffer
    only. *)
Lemma C7_failed_read_ends_loop :
  let e := failing_at 10 in
  let r := run e ["sbench"; "/tmp/t1"; "2"] ∅ in
  let T := trace (snd r) in
  (forall t, sig_at e t = None) /\ purge_status e = 0 /\
  existsb is_nocache_ok T = true /\
  fst r = Ok 0 /\
  Z.of_nat (length (bytes_written T)) = 2 * BUFSZ /\
  Z.of_nat (length (bytes_read T)) = BUFSZ /\
  bytes_read T <> bytes_written T.
Proof.
  intros e r T.
  assert (H : let T' := T in
              (existsb is_nocache_ok T', fst r,
               (Z.of_nat (length (bytes_written T')), Z.of_nat (length (bytes_read T'))))
              = (true, Ok 0, (2 * BUFSZ, BUFSZ)))
    by (vm_compute; reflexivity).
  cbv zeta in H.
  pose proof (f_equal fst (f_equal snd H)) as Hw.
  pose proof (f_equal snd (f_equal snd H)) as Hr.
  cbn [fst snd] in Hw, Hr.
  split; [reflexivity|]. split; [reflexivity|].
  split; [exact (f_equal fst (f_equal fst H))|].
  split; [exact (f_equal snd (f_equal fst H))|].
  split; [exact Hw|]. split; [exact Hr|].
  intros E. rewrite E, Hw in Hr. discriminate Hr.
Qed.

(** * Further properties of the program *)

(** ** The command line *)

Section ParseArgsMore.

Lemma size_of_arg_inr s v :
  size_of_arg s = inr v <->
  exists pos, stol s = Parsed v pos /\ 0 < v /\ (String.length s <= pos)%nat.
Proof.
  unfold size_of_arg. split.
  - destruct (stol s) as [v' pos| |]; try discriminate.
    destruct (v' <=? 0) eqn:Hv; try discriminate.
    destruct (pos <? String.length s)%nat eqn:Hp; try discriminate.
    intros H. injection H as <-. exists pos.
    apply Z.leb_gt in Hv. apply Nat.ltb_ge in Hp. auto.
  - intros (pos & -> & Hv & Hp).
    apply Z.leb_gt in Hv. apply Nat.ltb_ge in Hp. now rewrite Hv, Hp.
Qed.

End ParseArgsMore.

(** X1. [parseArgs] accepts a command line exactly when it has a path that
    is not empty and does not begin with a dash and either no size or a size
    that [std::stol] converts, in full, to a positive number.  The
    configuration then holds that path and that number (2048 without a
    size), a size between 1 and [LONG_MAX], and nothing was printed. *)
Theorem parseArgs_accepts_iff (argv : list string) (m : Machine) :
  let p := ctx (snd (parseArgs argv m)) in
  let s := nth 2 argv "" in
  (valid p = true <->
   (2 <= length argv)%nat /\ good_path (nth 1 argv "") = true /\
   (length argv = 2%nat \/
    exists v pos, stol s = Parsed v pos /\ 0 < v /\ (String.length s <= pos)%nat)) /\
  (valid p = true ->
   fst (parseArgs argv m) = Ok p /\
   outfile p = nth 1 argv "" /\
   (length argv = 2%nat -> mb p = 2048) /\
   (forall v pos, (2 < length argv)%nat -> stol s = Parsed v pos -> mb p = v) /\
   0 < mb p <= LONG_MAX /\
   outfileCreated p = false /\
   stderr (snd (parseArgs argv m)) = stderr m).
Proof.
  intros p s. subst p s.
  destruct (Nat.lt_ge_cases (length argv) 2%nat) as [H | H].
  { rewrite (parseArgs_too_few argv m H). simpl.
    split; [split; [discriminate | intros (H2 & _); lia] | discriminate]. }
  destruct (good_path (nth 1 argv "")) eqn:Hp.
  2:{ rewrite (parseArgs_bad_path argv m H Hp). simpl.
      split; [split; [discriminate | intros (_ & H2 & _); discriminate] | discriminate]. }
  destruct (Nat.eq_dec (length argv) 2%nat) as [H2 | H2].
  { rewrite (parseArgs_default_size argv m H2 Hp). simpl.
    split; [split; auto|]. intros _.
    split; [reflexivity|]. split; [reflexivity|]. split; [reflexivity|].
    split; [intros; lia|]. split; [unfold LONG_MAX; lia|].
    split; [reflexivity | apply app_nil_r]. }
  destruct (size_of_arg (nth 2 argv "")) as [w | v] eqn:Hs.
  { rewrite (parseArgs_size_bad argv w m ltac:(lia) Hp Hs). simpl.
    split; [split; [discriminate|] | discriminate].
    intros (_ & _ & [Hl | (v & pos & Hst)]); [lia|].
    assert (Hr : size_of_arg (nth 2 argv "") = inr v) by (apply size_of_arg_inr; eauto).
    congruence. }
  rewrite (parseArgs_size_ok argv v m ltac:(lia) Hp Hs). simpl.
  apply size_of_arg_inr in Hs. destruct Hs as (pos & Hst & Hv & Hpos).
  split; [split; [intros _ | reflexivity]|].
  { split; [exact H|]. split; [reflexivity|]. right. eauto. }
  intros _.
  split; [reflexivity|]. split; [reflexivity|]. split; [intros; lia|].
  split; [intros v' pos' _ Hst'; congruence|].
  split.
  { split; [exact Hv|]. unfold stol in Hst.
    destruct (skip_spaces (nth 2 argv "")) as [nsp s1].
    destruct (match s1 with
              | String "-" r => (true, 1%nat, r)
              | String "+" r => (false, 1%nat, r)
              | _ => (false, O, s1)
              end) as [[neg nsign] s2].
    destruct (read_digits s2 0) as [v0 nd].
    destruct (nd =? 0)%nat; try discriminate.
    destruct ((LONG_MIN <=? (if neg then - v0 else v0))
              && ((if neg then - v0 else v0) <=? LONG_MAX)) eqn:Hr; try discriminate.
    injection Hst as <- _. apply andb_true_iff in Hr. destruct Hr as [_ Hr].
    apply Z.leb_le in Hr. exact Hr. }
  split; [reflexivity | apply app_nil_r].
Qed.

(** X2. [parseArgs] performs no operation: it leaves the trace, the file
    system, the stream, the descriptor and the flag as they are and only
    appends to the diagnostic stream.  It prints nothing when it accepts;
    when it rejects it prints the usage line, with [argv[0]] as the name of
    the program, or [wrdata] when there is none; and the banner comes with
    it exactly when the path is missing or unacceptable. *)
Theorem parseArgs_only_reports (argv : list string) (m : Machine) :
  let m' := snd (parseArgs argv m) in
  trace m' = trace m /\ fs m' = fs m /\ ostrm m' = ostrm m /\ fdtab m' = fdtab m /\
  interrupted m' = interrupted m /\
  exists lines,
    stderr m' = stderr m ++ lines /\
    (valid (ctx m') = true -> lines = []) /\
    (valid (ctx m') = false -> In (usage_line (progname_of argv)) lines) /\
    (In banner_line lines <->
     (length argv < 2)%nat \/ good_path (nth 1 argv "") = false).
Proof.
  intros m'. subst m'.
  destruct (Nat.lt_ge_cases (length argv) 2%nat) as [H | H].
  { rewrite (parseArgs_too_few argv m H). simpl.
    repeat (split; [reflexivity|]). eexists. split; [reflexivity|].
    split; [discriminate|]. split; [intros _; right; right; left; reflexivity|].
    split; [auto | intros _; left; reflexivity]. }
  destruct (good_path (nth 1 argv "")) eqn:Hp.
  2:{ rewrite (parseArgs_bad_path argv m H Hp). simpl.
      repeat (split; [reflexivity|]). eexists. split; [reflexivity|].
      split; [discriminate|]. split; [intros _; right; right; left; reflexivity|].
      split; [auto | intros _; left; reflexivity]. }
  assert (Hno : ~ ((length argv < 2)%nat \/ true = false))
    by (intros [H1 | H1]; [lia | discriminate]).
  destruct (Nat.eq_dec (length argv) 2%nat) as [H2 | H2].
  { rewrite (parseArgs_default_size argv m H2 Hp). simpl.
    repeat (split; [reflexivity|]). exists []. split; [reflexivity|].
    split; [reflexivity|]. split; [discriminate|].
    split; [intros [] | intros H1; destruct (Hno H1)]. }
  destruct (size_of_arg (nth 2 argv "")) as [w | v] eqn:Hs.
  { rewrite (parseArgs_size_bad argv w m ltac:(lia) Hp Hs). simpl.
    repeat (split; [reflexivity|]). eexists. split; [reflexivity|].
    split; [discriminate|]. split; [intros _; right; left; reflexivity|].
    split; [|intros H1; destruct (Hno H1)].
    intros [H1 | [H1 | []]]; exfalso; [|discriminate H1].
    unfold parse_error_line, banner_line in H1. discriminate H1. }
  rewrite (parseArgs_size_ok argv v m ltac:(lia) Hp Hs). simpl.
  repeat (split; [reflexivity|]). exists []. split; [reflexivity|].
  split; [reflexivity|]. split; [discriminate|].
  split; [intros [] | intros H1; destruct (Hno H1)].
Qed.

Lemma parseArgs_rest a0 a1 a2 rest m :
  parseArgs (a0 :: a1 :: a2 :: rest) m = parseArgs [a0; a1; a2] m.
Proof.
  destruct (good_path a1) eqn:Hp.
  2:{ rewrite (parseArgs_bad_path (a0 :: a1 :: a2 :: rest) m) by (simpl; auto; lia).
      rewrite (parseArgs_bad_path [a0; a1; a2] m) by (simpl; auto; lia).
      reflexivity. }
  destruct (size_of_arg a2) as [w | v] eqn:Hs.
  - rewrite (parseArgs_size_bad (a0 :: a1 :: a2 :: rest) w m) by (simpl; auto; lia).
    rewrite (parseArgs_size_bad [a0; a1; a2] w m) by (simpl; auto; lia).
    reflexivity.
  - rewrite (parseArgs_size_ok (a0 :: a1 :: a2 :: rest) v m) by (simpl; auto; lia).
    rewrite (parseArgs_size_ok [a0; a1; a2] v m) by (simpl; auto; lia).
    reflexivity.
Qed.

(** X3. Arguments after the size are ignored: the run is the same with and
    without them. *)
Theorem extra_arguments_ignored
  (e : Env) (a0 a1 a2 : string) (rest : list string) (fs0 : gmap string (list byte)) :
  run e (a0 :: a1 :: a2 :: rest) fs0 = run e [a0; a1; a2] fs0.
Proof.
  unfold run, main, bind. rewrite parseArgs_rest. reflexivity.
Qed.

(** ** The syntax of the size *)

Section SizeSyntax.

Lemma string_length_app s t :
  String.length (s +:+ t) = (String.length s + String.length t)%nat.
Proof. induction s as [|c s IH]; simpl; [reflexivity | now rewrite IH]. Qed.

Lemma skip_spaces_length s :
  String.length s = (fst (skip_spaces s) + String.length (snd (skip_spaces s)))%nat.
Proof.
  induction s as [|c s IH]; [reflexivity|]. simpl.
  destruct (isspace c); [|reflexivity].
  destruct (skip_spaces s) as [n r]. simpl in *. lia.
Qed.

Lemma skip_spaces_app s t :
  snd (skip_spaces s) <> "" ->
  skip_spaces (s +:+ t) = (fst (skip_spaces s), snd (skip_spaces s) +:+ t).
Proof.
  induction s as [|c s IH]; simpl; [congruence|].
  destruct (isspace c); [|reflexivity].
  destruct (skip_spaces s) as [n r]. simpl in *. intros H. now rewrite (IH H).
Qed.

Lemma read_digits_le s acc : (snd (read_digits s acc) <= String.length s)%nat.
Proof.
  revert acc. induction s as [|c s IH]; intros acc; simpl; [lia|].
  destruct (digit_of c) as [d|]; [|simpl; lia].
  specialize (IH (10 * acc + d)). destruct (read_digits s (10 * acc + d)). simpl in *. lia.
Qed.

Lemma read_digits_app s acc c :
  digit_of c = None ->
  read_digits (s +:+ String c "") acc = read_digits s acc.
Proof.
  intros Hc. revert acc. induction s as [|c' s IH]; intros acc; simpl.
  - now rewrite Hc.
  - destruct (digit_of c'); [|reflexivity]. now rewrite IH.
Qed.

Lemma size_of_arg_space c s :
  isspace c = true -> size_of_arg (String c s) = size_of_arg s.
Proof.
  intros Hc. unfold size_of_arg, stol. simpl. rewrite Hc.
  destruct (skip_spaces s) as [nsp s1].
  destruct (match s1 with
            | String "-" r => (true, 1%nat, r)
            | String "+" r => (false, 1%nat, r)
            | _ => (false, O, s1)
            end) as [[neg nsign] s2].
  destruct (read_digits s2 0) as [v nd].
  destruct (nd =? 0)%nat; [reflexivity|].
  destruct ((LONG_MIN <=? (if neg then - v else v)) && ((if neg then - v else v) <=? LONG_MAX));
    reflexivity.
Qed.

Lemma size_of_arg_trailing s v c :
  size_of_arg s = inr v -> digit_of c = None ->
  size_of_arg (s +:+ String c "") = inl "extra characters at end of string".
Proof.
  intros Hs Hc. unfold size_of_arg, stol in *.
  pose proof (skip_spaces_length s) as Hlen.
  pose proof (skip_spaces_app s (String c "")) as Happ.
  destruct (skip_spaces s) as [nsp s1]. simpl in Hlen, Happ.
  assert (Hne : s1 <> "").
  { intros ->. simpl in Hs. discriminate. }
  rewrite (Happ Hne).
  assert (Hsign : exists neg nsign s2,
             match s1 with
             | String "-" r => (true, 1%nat, r)
             | String "+" r => (false, 1%nat, r)
             | _ => (false, O, s1)
             end = (neg, nsign, s2) /\
             match s1 +:+ String c "" with
             | String "-" r => (true, 1%nat, r)
             | String "+" r => (false, 1%nat, r)
             | _ => (false, O, s1 +:+ String c "")
             end = (neg, nsign, s2 +:+ String c "") /\
             String.length s1 = (nsign + String.length s2)%nat).
  { destruct s1 as [|a r]; [congruence|]. simpl.
    destruct a as [[] [] [] [] [] [] [] []]; eexists _, _, _; repeat split. }
  destruct Hsign as (neg & nsign & s2 & E1 & E2 & Hl1). rewrite E1 in Hs. rewrite E2.
  rewrite (read_digits_app s2 0 c Hc).
  pose proof (read_digits_le s2 0) as Hnd.
  destruct (read_digits s2 0) as [v0 nd]. simpl in Hnd.
  destruct (nd =? 0)%nat; [discriminate|].
  destruct ((LONG_MIN <=? (if neg then - v0 else v0))
            && ((if neg then - v0 else v0) <=? LONG_MAX)); [|discriminate].
  destruct ((if neg then - v0 else v0) <=? 0); [discriminate|].
  assert (Hlt : (nsp + nsign + nd <? String.length (s +:+ String c ""))%nat = true).
  { apply Nat.ltb_lt. rewrite string_length_app. simpl. lia. }
  now rewrite Hlt.
Qed.

End SizeSyntax.

(** X4. White space before the size is ignored, as [std::stol] skips it and
    counts it among the characters it has read. *)
Theorem leading_space_ignored
  (e : Env) (a0 a1 : string) (c : ascii) (s : string) (fs0 : gmap string (list byte)) :
  isspace c = true ->
  run e [a0; a1; String c s] fs0 = run e [a0; a1; s] fs0.
Proof.
  intros Hc.
  assert (H : forall m, parseArgs [a0; a1; String c s] m = parseArgs [a0; a1; s] m).
  { intros m. destruct (good_path a1) eqn:Hp.
    2:{ rewrite (parseArgs_bad_path [a0; a1; String c s] m) by (simpl; auto; lia).
        rewrite (parseArgs_bad_path [a0; a1; s] m) by (simpl; auto; lia).
        reflexivity. }
    pose proof (size_of_arg_space c s Hc) as Hsz.
    destruct (size_of_arg s) as [w | v] eqn:Hs.
    - rewrite (parseArgs_size_bad [a0; a1; String c s] w m) by (simpl; auto; lia).
      rewrite (parseArgs_size_bad [a0; a1; s] w m) by (simpl; auto; lia).
      reflexivity.
    - rewrite (parseArgs_size_ok [a0; a1; String c s] v m) by (simpl; auto; lia).
      rewrite (parseArgs_size_ok [a0; a1; s] v m) by (simpl; auto; lia).
      reflexivity. }
  unfold run, main, bind. rewrite H. reflexivity.
Qed.

Lemma leading_space_ignored_witness :
  isspace " " = true /\
  run quiet ["sbench"; "/tmp/t1"; " 12"] ∅ = run quiet ["sbench"; "/tmp/t1"; "12"] ∅.
Proof.
  split; [reflexivity|].
  exact (leading_space_ignored quiet "sbench" "/tmp/t1" " " "12" ∅ eq_refl).
Defined.

(** X5. A size that is accepted is rejected when any character other than
    a digit follows it (a blank as well): the run is a usage error with the
    message about extra characters, before any operation. *)
Theorem trailing_character_rejected
  (e : Env) (a0 a1 s : string) (c : ascii) (fs0 : gmap string (list byte)) :
  valid (ctx (snd (parseArgs [a0; a1; s] (boot fs0)))) = true ->
  digit_of c = None ->
  exists m,
    run e [a0; a1; s +:+ String c ""] fs0 = (Ok 1, m) /\
    trace m = [] /\ fs m = fs0 /\
    stderr m = [parse_error_line "extra characters at end of string"; usage_line a0].
Proof.
  intros Hv Hc.
  destruct (good_path a1) eqn:Hp.
  2:{ rewrite (parseArgs_bad_path [a0; a1; s] (boot fs0)) in Hv by (simpl; auto; lia).
      discriminate Hv. }
  destruct (size_of_arg s) as [w | v] eqn:Hs.
  { rewrite (parseArgs_size_bad [a0; a1; s] w (boot fs0)) in Hv by (simpl; auto; lia).
    discriminate Hv. }
  pose proof (size_of_arg_trailing s v c Hs Hc) as Hbad.
  eexists. split.
  - rewrite (run_unfold e _ fs0 _ _
               (parseArgs_size_bad [a0; a1; s +:+ String c ""] _ (boot fs0)
                  (le_n 3) Hp Hbad)).
    reflexivity.
  - repeat split.
Qed.

Lemma trailing_character_rejected_witness :
  (valid (ctx (snd (parseArgs ["sbench"; "/tmp/t1"; "12"] (boot ∅)))) = true /\
   digit_of " " = None) /\
  exists m,
    run quiet ["sbench"; "/tmp/t1"; "12" +:+ String " " ""] ∅ = (Ok 1, m) /\
    trace m = [] /\ fs m = ∅ /\
    stderr m = [parse_error_line "extra characters at end of string"; usage_line "sbench"].
Proof.
  split; [split; reflexivity|].
  exact (trailing_character_rejected quiet "sbench" "/tmp/t1" "12" " " ∅ eq_refl eq_refl).
Defined.

(** ** What a run reads and what it changes *)

Section Frames.

Variable e : Env.

Lemma ReadLoop_prefix content off c count t count' :
  ReadLoop e content off c count t count' ->
  exists k, drop off content = bytes_read t ++ k.
Proof.
  induction 1 as [off c count Hf | off c count Hf Hd | off c count data Hf Hd Hne Hs
                  | off c count data t count' Hf Hd Hne Hs H (k & IH)].
  - eexists. reflexivity.
  - eexists. reflexivity.
  - exists (drop BUFSZ_nat (drop off content)).
    unfold bytes_read. simpl. rewrite app_nil_r, Hd. symmetry. apply take_drop.
  - exists k. unfold bytes_read in *. simpl. rewrite <- app_assoc, <- IH.
    assert (Hdrop : drop (off + length data) content = drop BUFSZ_nat (drop off content)).
    { rewrite <- (take_drop_length BUFSZ_nat (drop off content)), <- Hd, drop_drop.
      reflexivity. }
    rewrite Hdrop, Hd. symmetry. apply take_drop.
Qed.

Lemma ReadPhase_prefix path data c t code :
  ReadPhase e path (Some data) c t code ->
  bytes_written t = [] /\ exists k, data = bytes_read t ++ k.
Proof.
  intros H.
  destruct H as [Hp | Hp Hc | Hp Hc Hf1 Hf2 | data' reads count Hp Hd Hf1 Hf2 HL];
    try (split; [reflexivity | eexists; reflexivity]).
  injection Hd as <-.
  destruct (read_events_write_nothing reads (ReadLoop_kind e _ _ _ _ _ _ HL)) as (Hw & _).
  destruct (ReadLoop_prefix _ _ _ _ _ _ HL) as (k & Hk). rewrite drop_0 in Hk.
  split.
  - rewrite !bytes_written_app, Hw. reflexivity.
  - exists k. rewrite !bytes_read_app. simpl. rewrite app_nil_r. exact Hk.
Qed.

Lemma Pipeline_prefix path buf n c t code :
  Pipeline e path buf n c t code ->
  exists k, bytes_written t = bytes_read t ++ k.
Proof.
  intros [tw cw HW Hne | tw tr cr HW HR].
  - destruct (WritePhase_shows e _ _ _ _ _ _ HW) as (_ & Hbr & _).
    rewrite Hbr. eexists. reflexivity.
  - destruct (WritePhase_shows e _ _ _ _ _ _ HW) as (_ & Hbr & _).
    destruct (ReadPhase_prefix _ _ _ _ _ HR) as (Hw & k & Hk).
    exists k. rewrite bytes_written_app, bytes_read_app, Hw, Hbr, app_nil_r. exact Hk.
Qed.

End Frames.

(** X6. In every run, whatever fails and whenever a signal arrives, the
    bytes the read phase has read are an initial part of the bytes the write
    phase has written. *)
Theorem read_back_is_prefix (e : Env) (argv : list string) (fs0 : gmap string (list byte)) :
  let T := trace (snd (run e argv fs0)) in
  bytes_read T `prefix_of` bytes_written T.
Proof.
  intros T.
  destruct (run_cases e argv fs0) as (code & _ & Hcases). fold T in Hcases.
  destruct Hcases as [(_ & _ & HT) | [(_ & _ & _ & HT) | (_ & _ & HG)]];
    try (rewrite HT; exists []; reflexivity).
  destruct HG as [t code' Hf0 HP | t code' Hf0 HP];
    destruct (Pipeline_prefix e _ _ _ _ _ _ HP) as (k & Hk); exists k.
  - exact Hk.
  - rewrite bytes_written_app, bytes_read_app. simpl. now rewrite !app_nil_r.
Qed.



(** ** What the code 0 means *)

Section Success.

Variable e : Env.

Lemma repeat_never_fails path (buf : list byte) n :
  existsb is_write_failure (repeat (EvWrite path buf true) n) = false.
Proof. induction n as [|n IH]; [reflexivity | exact IH]. Qed.

Lemma Pipeline_zero path buf n c t :
  Pipeline e path buf n c t 0 ->
  purge_status e = 0 /\ fault e c = false /\
  exists tw reads,
    t = tw ++ [EvSystem purge_command 0; EvOpenR path 3; EvFcntl 3 0] ++ reads ++ [EvClose 3] /\
    tw = [EvOpenW path true; EvRandom] ++ repeat (EvWrite path buf true) n
           ++ [EvFlush path true; EvCloseW path true] /\
    Forall (fun ev => is_read_event ev = true) reads /\
    bytes_read reads <> [] /\
    signalled e (c + length tw + 3 + length reads) = false.
Proof.
  intros H. remember 0 as code eqn:Hcode.
  destruct H as [tw cw HW Hne | tw tr cr HW HR]; [congruence|]. subst cr.
  destruct (WritePhase_zero e _ _ _ _ _ HW) as (Htw & Hf0 & _).
  remember 0 as code eqn:Hcode in HR.
  destruct HR as [Hp | Hp Hc | Hp Hc Hf1 Hf2 | data reads count Hp Hd Hf1 Hf2 HL];
    try congruence; try discriminate.
  destruct (signalled e (c + length tw + 3 + length reads)) eqn:Hs; [discriminate|].
  destruct (count =? 0) eqn:Hcount; [discriminate|].
  apply Z.eqb_neq in Hcount.
  destruct (ReadLoop_shows e _ _ _ _ _ _ HL) as (_ & _ & _ & Hcnt).
  split; [exact Hp|]. split; [exact Hf0|].
  exists tw, reads. split; [reflexivity|]. split; [exact Htw|].
  split; [eapply ReadLoop_kind; exact HL|]. split; [|exact Hs].
  intros E. apply Hcount. rewrite (Hcnt eq_refl Hs), E. reflexivity.
Qed.

End Success.

(** X8. When [main] returns 0 the command line was accepted, the write
    loop has made every one of its turns without a failure on the output
    stream, the purge command and the [fcntl] have succeeded, at least one
    byte was read back, and the run has ended with the [unlink] of the
    output file. *)
Theorem success_means_full_run
  (e : Env) (argv : list string) (fs0 : gmap string (list byte)) :
  let p := ctx (snd (parseArgs argv (boot fs0))) in
  let r := run e argv fs0 in
  let T := trace (snd r) in
  fst r = Ok 0 ->
  valid p = true /\ (1 <= turns p)%nat /\
  count_writes T = turns p /\
  existsb is_write_failure T = false /\
  purge_status e = 0 /\
  existsb is_nocache_ok T = true /\
  bytes_read T <> [] /\
  exists t res, T = t ++ [EvUnlink (outfile p) res].
Proof.
  intros p r T Hr.
  destruct (run_cases e argv fs0) as (code & Hr' & Hcases).
  fold r in Hr'. fold p T r in Hcases. rewrite Hr in Hr'. injection Hr' as <-.
  destruct Hcases as [(_ & H1 & _) | [(_ & _ & H2 & _) | (Hv & HN & HG)]]; try discriminate.
  assert (HP : exists t, Pipeline e (outfile p) (random_buffer e) (turns p) 0 t 0 /\
                 T = t ++ [EvUnlink (outfile p) (if fault e (0 + length t) then -1 else 0)]).
  { clear - HG. remember 0 as code eqn:Hcode in HG. subst T.
    destruct HG as [t code Hf0 HP | t code Hf0 HP]; subst code.
    - destruct (Pipeline_zero e _ _ _ _ _ HP) as (_ & Hf & _). congruence.
    - exists t. split; [exact HP | reflexivity]. }
  destruct HP as (t & HP & HT).
  destruct (Pipeline_zero e _ _ _ _ _ HP) as (Hp & Hf0 & tw & reads & Ht & Htw & Hk & Hb & Hs).
  destruct (read_events_write_nothing reads Hk) as (_ & Hcw0).
  pose proof (write_trace_measure (outfile p) (random_buffer e) (turns p)) as Hm.
  cbv zeta in Hm. rewrite <- Htw in Hm. destruct Hm as (Hm1 & _ & Hm3).
  assert (Hwf : existsb is_write_failure tw = false).
  { rewrite Htw, !existsb_app, repeat_never_fails. reflexivity. }
  assert (Hwr : existsb is_write_failure reads = false).
  { clear - Hk. induction Hk as [|ev l Hev _ IH]; [reflexivity|].
    simpl. rewrite IH. destruct ev; try discriminate; reflexivity. }
  split; [exact Hv|]. split; [apply turns_pos; exact HN|].
  rewrite HT, Ht.
  split.
  { rewrite !count_writes_app, Hm1, Hcw0.
    change (count_writes [EvSystem purge_command 0; EvOpenR (outfile p) 3; EvFcntl 3 0]) with O.
    change (count_writes [EvClose 3]) with O.
    change (count_writes [EvUnlink _ _]) with O. lia. }
  split.
  { rewrite !existsb_app, Hwf, Hwr. reflexivity. }
  split; [exact Hp|].
  split.
  { rewrite !existsb_app. simpl. now rewrite orb_true_r. }
  split.
  { rewrite !bytes_read_app, Hm3. simpl. rewrite !app_nil_r. exact Hb. }
  eexists _, _. reflexivity.
Qed.

Lemma success_means_full_run_witness :
  let argv := ["sbench"; "/tmp/t1"; "1"] in
  let p := ctx (snd (parseArgs argv (boot ∅))) in
  let r := run quiet argv ∅ in
  let T := trace (snd r) in
  fst r = Ok 0 /\
  valid p = true /\ (1 <= turns p)%nat /\
  count_writes T = turns p /\
  existsb is_write_failure T = false /\
  purge_status quiet = 0 /\
  existsb is_nocache_ok T = true /\
  bytes_read T <> [] /\
  exists t res, T = t ++ [EvUnlink (outfile p) res].
Proof.
  intros argv p r T.
  assert (H : fst r = Ok 0) by (vm_compute; reflexivity).
  split; [exact H|].
  exact (success_means_full_run quiet argv ∅ H).
Defined.

(** ** Signals and transfers *)

Section Positions.

Variable e : Env.





End Positions.

